(** * lbq: command dispatch by first-longest match

    A shallow embedding of the classes [Action] and [LBQ] of the library
    ([index.ts]): pattern matching against [argv], the selection loop of
    [find], the overload resolution of [register] and the formatting of
    [list].

    Strings are Stdlib strings, one character per code unit.  What the
    JavaScript runtime supplies (case folding, the regular-expression engine,
    [util.inspect], [String(...)]) is gathered in the class [Runtime], so the
    theorems hold for every such runtime.

    The lookup of the configuration file ([env], [configFile],
    [searchConfigFile]), the command-line script ([cli.ts]) and the
    post-build script follow, over a [Host] and a [Cli] that stand for the
    process, the operating system and the handlers. *)

From Stdlib Require Import ZArith Lia Ascii.
From stdpp Require Import base list strings gmap.

Local Set Warnings "-register-all".

(** ** JavaScript values *)

(** A regular expression object, identified by its source text and flags.
    Matching is described for expressions that keep no state between calls;
    a sticky expression (flag [y]) remembers in [lastIndex] where its last
    match ended and is set apart by [stateless_rule] below. *)
Record RegExp := mkRegExp { source : string; flags : string }.

(** A function object: [fn_id] stands for its identity, [fn_source] for the
    text returned by [Function.prototype.toString]. *)
Record JsFunction := mkFunction { fn_id : nat; fn_source : string }.

(** The values [register(...args: unknown[])] can receive.  Numbers are
    restricted to integers ([NaN], falsy as well, is left out). *)
Inductive Value :=
| VUndefined
| VNull
| VBoolean (b : bool)
| VNumber (n : Z)
| VString (s : string)
| VRegExp (r : RegExp)
| VFunction (f : JsFunction)
| VArray (elems : list Value)
| VObject (props : list (string * Value)).

(** The result of [typeof]. *)
Inductive JsType :=
| TUndefined | TObject | TBoolean | TNumber | TString | TFunction.

Definition typeof (v : Value) : JsType :=
  match v with
  | VUndefined => TUndefined
  | VNull => TObject
  | VBoolean _ => TBoolean
  | VNumber _ => TNumber
  | VString _ => TString
  | VRegExp _ => TObject
  | VFunction _ => TFunction
  | VArray _ => TObject
  | VObject _ => TObject
  end.

Definition JsType_eqb (a b : JsType) : bool :=
  match a, b with
  | TUndefined, TUndefined | TObject, TObject | TBoolean, TBoolean
  | TNumber, TNumber | TString, TString | TFunction, TFunction => true
  | _, _ => false
  end.

(** JavaScript truthiness, as tested by [!first] and [obj && ...]. *)
Definition truthy (v : Value) : bool :=
  match v with
  | VUndefined | VNull => false
  | VBoolean b => b
  | VNumber n => negb (n =? 0)%Z
  | VString s => negb (String.eqb s "")
  | VRegExp _ | VFunction _ | VArray _ | VObject _ => true
  end.

(** [v instanceof RegExp] *)
Definition instanceof_RegExp (v : Value) : bool :=
  match v with VRegExp _ => true | _ => false end.

(** [Array.isArray(v)] *)
Definition isArray (v : Value) : bool :=
  match v with VArray _ => true | _ => false end.

(** [key in obj] for a value that passed [typeof obj === 'object']: plain
    objects answer by their properties; arrays and regular expressions carry
    neither a [pattern] nor a [run] property. *)
Definition has_property (key : string) (obj : Value) : bool :=
  match obj with
  | VObject props => existsb (fun kv => String.eqb (fst kv) key) props
  | _ => false
  end.

(** [obj.key]; an absent property reads as [undefined]. *)
Definition get_property (key : string) (obj : Value) : Value :=
  match obj with
  | VObject props =>
      match find (fun kv => String.eqb (fst kv) key) props with
      | Some kv => snd kv
      | None => VUndefined
      end
  | _ => VUndefined
  end.

(** [args[i]]: out of range reads as [undefined]. *)
Definition arg_at (args : list Value) (i : nat) : Value :=
  default VUndefined (args !! i).

(** ** Patterns and match arrays *)

(** [string | RegExp] *)
Inductive Pattern :=
| Literal (text : string)
| Regex (expr : RegExp).

(** [string | RegExp | readonly (string | RegExp)[]], the type of
    [Action.pattern]. *)
Inductive PatternSpec :=
| Single (p : Pattern)
| Many (ps : list Pattern).

(** [RegExpMatchArray extends Array<string>]: element 0 is the whole match. *)
Definition RegExpMatchArray := list string.

(** [interface Ref<T> { value: T }] *)
Record Ref (T : Type) := mkRef { value : T }.
Arguments mkRef {T} _.
Arguments value {T} _.

(** What Node supplies. *)
Class Runtime := {
  (** [String.prototype.toLowerCase] *)
  toLowerCase : string → string;
  (** [input.match(pattern)] for a regular expression: the match array, or
      [None] for [null]; for an expression without the sticky flag the call
      neither reads nor changes [lastIndex] *)
  string_match : string → RegExp → option RegExpMatchArray;
  (** [util.inspect] on a string or a regular expression *)
  inspect : Pattern → string;
  (** [String(value)] *)
  String_ : Value → string;
  (** [text.replace(/\s+/g, ' ').trim()] *)
  collapse_whitespace : string → string
}.

(** A pattern-typed value read as a [Pattern]. *)
Definition as_pattern (v : Value) : option Pattern :=
  match v with
  | VString s => Some (Literal s)
  | VRegExp r => Some (Regex r)
  | _ => None
  end.

(** [typeof a === 'string' || a instanceof RegExp] *)
Definition is_pattern (v : Value) : bool :=
  JsType_eqb (typeof v) TString || instanceof_RegExp v.

(** The cast [as (string | RegExp)[]] of an array whose elements were all
    checked by [is_pattern]. *)
Definition as_patterns (vs : list Value) : list Pattern :=
  omap as_pattern vs.

(** The cast of a checked [pattern] value to the type of [Action.pattern];
    the last case is never reached behind the guards of [register]. *)
Definition as_pattern_spec (v : Value) : PatternSpec :=
  match v with
  | VString s => Single (Literal s)
  | VRegExp r => Single (Regex r)
  | VArray elems => Many (as_patterns elems)
  | _ => Many []
  end.

(** ** class Action *)

Record Action := mkAction {
  pattern : PatternSpec;
  description : string;
  run : JsFunction
}.

Module Action.
Section WithRuntime.
Context `{Runtime}.

(** [constructor(pattern, run, description?)]:
    [description || run.toString().replace(/\s+/g, ' ').trim()] *)
Definition new (pattern : PatternSpec) (run : JsFunction)
    (description : option string) : Action :=
  let given := default "" description in
  mkAction pattern
    (if String.eqb given "" then collapse_whitespace (fn_source run)
     else given)
    run.

(** [get length()] *)
Definition length (a : Action) : nat :=
  match pattern a with
  | Many ps => List.length ps
  | Single _ => 1
  end.

(** [get label()] *)
Definition label (a : Action) : string :=
  match pattern a with
  | Many ps => String.concat " " (map inspect ps)
  | Single p => inspect p
  end.

(** [notMatch(input, pattern, out)]: the returned list is [out] after the
    call, [true] means the token does not match. *)
Definition notMatch (input : option string) (pattern : Pattern)
    (out : list RegExpMatchArray) : bool * list RegExpMatchArray :=
  match input with
  | None => (true, out)
  | Some input =>
      match pattern with
      | Literal pattern =>
          if String.eqb (toLowerCase input) (toLowerCase pattern)
          then (false, out ++ [[input]])
          else (true, out)
      | Regex pattern =>
          match string_match input pattern with
          | Some match_ => (false, out ++ [match_])
          | None => (true, out)
          end
      end
  end.

(** The [for] loop of [matches] from index [i] on: [None] when some
    position does not match (the early [return false]), otherwise the
    final [out]. *)
Fixpoint matches_from (argv : list string) (ps : list Pattern) (i : nat)
    (out : list RegExpMatchArray) : option (list RegExpMatchArray) :=
  match ps with
  | [] => Some out
  | p :: ps' =>
      let '(no, out') := notMatch (argv !! i) p out in
      if no then None else matches_from argv ps' (S i) out'
  end.

(** [matches(argv, result)]: the boolean result and the content of
    [result] after the call. *)
Definition matches (a : Action) (argv : list string)
    (result : Ref (option (list RegExpMatchArray)))
    : bool * Ref (option (list RegExpMatchArray)) :=
  if length a =? 0 then (true, result)
  else
    match pattern a with
    | Many ps =>
        match matches_from argv ps 0 [] with
        | None => (false, result)
        | Some out => (true, mkRef (Some out))
        end
    | Single p =>
        let '(no, out) := notMatch (argv !! 0) p [] in
        if no then (false, result) else (true, mkRef (Some out))
    end.

End WithRuntime.
End Action.

(** ** isActionDefinition and toString *)

Definition isActionDefinition (obj : Value) : bool :=
  if truthy obj && JsType_eqb (typeof obj) TObject
     && has_property "pattern" obj && has_property "run" obj
  then
    let def_pattern := get_property "pattern" obj in
    let def_run := get_property "run" obj in
    (JsType_eqb (typeof def_pattern) TString
     || instanceof_RegExp def_pattern
     || (isArray def_pattern
         && match def_pattern with
            | VArray elems => forallb is_pattern elems
            | _ => false
            end))
    && JsType_eqb (typeof def_run) TFunction
  else false.

(** [toString(value: unknown): string | undefined] *)
Definition toString `{Runtime} (v : Value) : option string :=
  match v with
  | VString s => Some s
  | VUndefined | VNull => None
  | _ => Some (String_ v)
  end.

(** ** class LBQ *)

Inductive JsError :=
| TypeError (message : string)
| Error (message : string).

(** The outcome of a method of [LBQ]: it returns normally or throws; either
    way [actions] is what the registry holds afterwards. *)
Inductive Outcome (A : Type) :=
| Returns (result : A) (actions : list Action)
| Throws (error : JsError) (actions : list Action).
Arguments Returns {A} _ _.
Arguments Throws {A} _ _.

(** Computations over [this.actions] that may throw. *)
Definition M (A : Type) : Type := list Action → Outcome A.

Global Instance M_ret : MRet M := λ A x actions, Returns x actions.
Global Instance M_bind : MBind M := λ A B k m actions,
  match m actions with
  | Returns x actions' => k x actions'
  | Throws e actions' => Throws e actions'
  end.

Definition throw {A} (e : JsError) : M A := λ actions, Throws e actions.

(** [this.actions.push(action)] *)
Definition push (action : Action) : M unit :=
  λ actions, Returns () (actions ++ [action]).

Module LBQ.
Section WithRuntime.
Context `{Runtime}.

(** State of the loop of [find]: [found], [maxLength], [actionArgs]. *)
Definition find_state : Type :=
  option Action * nat * Ref (option (list RegExpMatchArray)).

(** One iteration of [for (const action of this.actions)].  [&&] is
    short-circuit: [matches] runs only when the first test holds. *)
Definition find_step (argv : list string) (st : find_state)
    (action : Action) : find_state :=
  let '(found, maxLength, actionArgs) := st in
  if negb (bool_decide (is_Some found)) || (maxLength <? Action.length action)
  then
    let '(ok, actionArgs') := Action.matches action argv actionArgs in
    if ok then (Some action, Action.length action, actionArgs')
    else (found, maxLength, actionArgs')
  else st.

Definition find_loop (argv : list string) (actions : list Action)
    (st : find_state) : find_state :=
  foldl (find_step argv) st actions.

(** [find(argv)]; [None] is [undefined]. *)
Definition find (actions : list Action) (argv : list string)
    : option (Action * list RegExpMatchArray * list string) :=
  let '(found, maxLength, actionArgs) :=
    find_loop argv actions (None, 0, mkRef None) in
  match found, value actionArgs with
  | Some found, Some args => Some (found, args, drop maxLength argv)
  | _, _ => None
  end.

(** The loop of [_getRunAndDescription] over the arguments from [start]
    on, updating [run] and [description]. *)
Definition scan_run_description
    (acc : option JsFunction * option string) (arg : Value)
    : option JsFunction * option string :=
  let '(run, description) := acc in
  match arg with
  | VFunction f => (Some f, description)
  | VString s => (run, Some s)
  | _ => (run, description)
  end.

Definition _getRunAndDescription (args : list Value) (start : nat)
    : M (JsFunction * option string) :=
  let '(run, description) :=
    foldl scan_run_description (None, None) (drop start args) in
  match run with
  | None => throw (Error "No action provided in register()")
  | Some run => mret (run, description)
  end.

(** The scan [for (; end < args.length; end++)] of [register], over the
    arguments from index [end] on; the result is the final [end]. *)
Fixpoint scan_patterns (rest : list Value) (end_ : nat) : nat :=
  match rest with
  | [] => end_
  | arg :: rest' =>
      if JsType_eqb (typeof arg) TFunction then end_
      else if negb (JsType_eqb (typeof arg) TString)
              && negb (instanceof_RegExp arg) then end_
      else scan_patterns rest' (S end_)
  end.

(** [register(...args)]; the returned [this] is left out, the declared
    overloads return [void].  Behind [isActionDefinition] the property [run]
    is a function and [pattern] is well shaped (lemma
    [isActionDefinition_shape]), so the default case of the inner [match]
    and the last case of [as_pattern_spec] are never reached. *)
Definition register (args : list Value) : M unit :=
  let first := arg_at args 0 in
  if negb (truthy first) then
    '(run, description) ← _getRunAndDescription args 0;
    push (Action.new (Many []) run description)
  else if isActionDefinition first then
    push (Action.new (as_pattern_spec (get_property "pattern" first))
            (match get_property "run" first with
             | VFunction f => f
             | _ => mkFunction 0 ""
             end)
            (toString (get_property "description" first)))
  else if JsType_eqb (typeof first) TString || instanceof_RegExp first then
    let end_ := scan_patterns (drop 1 args) 1 in
    let patterns :=
      if end_ =? 1 then as_pattern_spec first
      else Many (as_patterns (take end_ args)) in
    '(run, description) ← _getRunAndDescription args end_;
    push (Action.new patterns run description)
  else throw (TypeError "Invalid arguments in register()").

(** [n] space characters. *)
Fixpoint spaces (n : nat) : string :=
  match n with
  | 0 => ""
  | S n' => String " "%char (spaces n')
  end.

(** [label.padEnd(len)] *)
Definition padEnd (s : string) (len : nat) : string :=
  s +:+ spaces (len - String.length s).

(** [list()]; [description || ''] is [description], which is a string. *)
Definition list (actions : Datatypes.list Action) : Datatypes.list string :=
  let len :=
    foldl (λ max action, Nat.max max (String.length (Action.label action)))
      0 actions + 4 in
  let arr := map (λ a, (Action.label a, description a)) actions in
  map (λ '(label, description), padEnd label len +:+ description) arr.

End WithRuntime.
End LBQ.

(** ** A sample runtime

    An ASCII instance of [Runtime], used to run the definitions on concrete
    inputs: case folding of [A-Z]; regular expressions limited to [.+] and
    to plain text sources, searched as substrings; [util.inspect] quoting
    strings with single quotes. *)

Module Sample.

Definition lower_ascii (c : ascii) : ascii :=
  let n := nat_of_ascii c in
  if (65 <=? n) && (n <=? 90) then ascii_of_nat (n + 32) else c.

Fixpoint lower (s : string) : string :=
  match s with
  | EmptyString => EmptyString
  | String c s' => String (lower_ascii c) (lower s')
  end.

Fixpoint contains (needle s : string) : bool :=
  String.prefix needle s
  || match s with
     | EmptyString => false
     | String _ s' => contains needle s'
     end.

Definition exec (input : string) (r : RegExp) : option RegExpMatchArray :=
  if String.eqb (source r) ".+" then
    if String.eqb input "" then None else Some [input]
  else if contains (source r) input then Some [source r]
  else None.

Definition show (p : Pattern) : string :=
  match p with
  | Literal s => "'" +:+ s +:+ "'"
  | Regex r => "/" +:+ source r +:+ "/" +:+ flags r
  end.

Definition is_space (c : ascii) : bool :=
  let n := nat_of_ascii c in
  (n =? 32) || ((9 <=? n) && (n <=? 13)).

(** [replace(/\s+/g, ' ')]: [in_run] tells that the previous character
    was white space. *)
Fixpoint collapse (in_run : bool) (s : string) : string :=
  match s with
  | EmptyString => EmptyString
  | String c s' =>
      if is_space c then
        if in_run then collapse true s'
        else String " "%char (collapse true s')
      else String c (collapse false s')
  end.

Fixpoint trim_end (s : string) : string :=
  match s with
  | EmptyString => EmptyString
  | String c s' =>
      match trim_end s' with
      | EmptyString => if is_space c then EmptyString else String c EmptyString
      | t => String c t
      end
  end.

Fixpoint trim_start (s : string) : string :=
  match s with
  | EmptyString => EmptyString
  | String c s' => if is_space c then trim_start s' else s
  end.

Definition to_text (v : Value) : string :=
  match v with
  | VBoolean true => "true"
  | VBoolean false => "false"
  | VString s => s
  | VUndefined => "undefined"
  | VNull => "null"
  | VFunction f => fn_source f
  | _ => "[object Object]"
  end.

#[export] Instance runtime : Runtime := {|
  toLowerCase := lower;
  string_match := exec;
  inspect := show;
  String_ := to_text;
  collapse_whitespace := λ s, trim_start (trim_end (collapse false s))
|}.

(** The handlers and registrations of [index.test.ts]. *)
Definition world : JsFunction := mkFunction 1 "() => console.log('world')".
Definition foobar : JsFunction := mkFunction 2 "() => console.log('foobar')".
Definition print_args : JsFunction :=
  mkFunction 3 "(_, ...args) => console.log(args)".

Definition after (calls : list (list Value)) : Outcome unit :=
  foldl (λ (m : M unit) args, m ≫= λ _, LBQ.register args) (mret ()) calls [].

Definition registry_of (calls : list (list Value)) : list Action :=
  match after calls with
  | Returns _ actions => actions
  | Throws _ actions => actions
  end.

Definition test_calls : list (list Value) :=
  [ [VString "hello"; VFunction world; VString "Hello, world!"];
    [VObject [("pattern", VArray [VString "foo"; VRegExp (mkRegExp "bar" "")]);
              ("run", VFunction foobar);
              ("description", VString "Foo Bar")]];
    [VString "args"; VFunction print_args; VString "Args"] ].

End Sample.

(** ** Vocabulary of the statements *)

Section Dispatch.
Context `{Runtime}.

(** What a successful [matches] stores in [result.value] for a rule with
    at least one pattern: the captured groups, one array per position. *)
Definition captures (a : Action) (argv : list string)
    : option (list RegExpMatchArray) :=
  match pattern a with
  | Many ps => Action.matches_from argv ps 0 []
  | Single p =>
      let '(no, out) := Action.notMatch (argv !! 0) p [] in
      if no then None else Some out
  end.

(** The boolean answer of [matches]. *)
Definition is_match (a : Action) (argv : list string) : bool :=
  fst (Action.matches a argv (mkRef None)).

(** [a], registered at index [i], matches, no matching rule is longer and
    every matching rule registered before it is strictly shorter. *)
Definition first_longest (argv : list string) (actions : list Action)
    (i : nat) (a : Action) : Prop :=
  actions !! i = Some a ∧ is_match a argv = true ∧
  ∀ j b, actions !! j = Some b → is_match b argv = true →
    Action.length b ≤ Action.length a ∧
    (j < i → Action.length b < Action.length a).

(** Invariant of the loop of [find] once the rules [seen] were visited. *)
Definition find_inv (argv : list string) (seen : list Action)
    (st : LBQ.find_state) : Prop :=
  match st with
  | (None, maxLength, actionArgs) =>
      maxLength = 0 ∧ value actionArgs = None ∧
      ∀ j b, seen !! j = Some b → is_match b argv = false
  | (Some a, maxLength, actionArgs) =>
      maxLength = Action.length a ∧
      (∃ i, first_longest argv seen i a) ∧
      value actionArgs =
        if Action.length a =? 0 then None else captures a argv
  end.

End Dispatch.

(** The callables among some arguments, in order. *)
Definition functions_of (vs : list Value) : list JsFunction :=
  omap (λ v, match v with VFunction f => Some f | _ => None end) vs.

(** The strings among some arguments, in order. *)
Definition strings_of (vs : list Value) : list string :=
  omap (λ v, match v with VString s => Some s | _ => None end) vs.

(** The longest prefix made of strings and regular expressions. *)
Fixpoint leading_patterns (vs : list Value) : list Value :=
  match vs with
  | v :: vs' => if is_pattern v then v :: leading_patterns vs' else []
  | [] => []
  end.

(** The pattern sequence of a rule. *)
Definition pattern_list (p : PatternSpec) : list Pattern :=
  match p with
  | Single p => [p]
  | Many ps => ps
  end.


(** The condition under which [register] throws, as the specification words
    it: no callable handler is found among the arguments (for a definition
    object, its [run]), or a pattern-bearing argument -- the [pattern] of a
    definition object, otherwise each argument before the first callable --
    is neither a string, nor a regular expression, nor a sequence of
    those. *)
Definition supported_shape (v : Value) : bool :=
  is_pattern v
  || match v with VArray elems => forallb is_pattern elems | _ => false end.




(** The width of the longest label of the registry. *)
Definition longest_label `{Runtime} (actions : list Action) : nat :=
  max_list_with (λ a, String.length (Action.label a)) actions.

(** [s.padStart(len)]: padding on the left. *)
Definition padStart (s : string) (len : nat) : string :=
  LBQ.spaces (len - String.length s) +:+ s.

(** The lines as the specification words them: the label left-padded to the
    longest label width, followed by the description. *)
Definition list_as_claimed `{Runtime} (actions : list Action) : list string :=
  map (λ a, padStart (Action.label a) (longest_label actions) +:+ description a)
    actions.

Import Sample.

(** Sample rules: one literal token, a literal token followed by any
    token, and no pattern at all. *)
Definition hello : Action := Action.new (Single (Literal "hello")) world None.
Definition hello_any : Action :=
  Action.new (Many [Literal "hello"; Regex (mkRegExp ".+" "")]) foobar None.
Definition catch_all : Action := Action.new (Many []) print_args None.

(** ** Further vocabulary: matching position by position *)

(** One pattern against one present token: the array [notMatch] pushes for
    the position, or [None] when the token does not match. *)
Definition position_match `{Runtime} (p : Pattern) (token : string)
    : option RegExpMatchArray :=
  match p with
  | Literal text =>
      if String.eqb (toLowerCase token) (toLowerCase text)
      then Some [token] else None
  | Regex expr => string_match token expr
  end.

(** The same rule with its pattern held as a sequence, the way
    [register({ pattern: [p], ... })] stores what [register(p, ...)] stores
    as a single pattern. *)
Definition as_sequence (a : Action) : Action :=
  mkAction (Many (pattern_list (pattern a))) (description a) (run a).

(** ** defineConfig *)

(** The callback of a configuration: it receives [register]. *)
Definition Callback : Type := (list Value → M unit) → M unit.

(** [defineConfig(callback)]: a fresh [LBQ], filled by the callback.  The
    outcome carries the registry; a throwing callback rejects the promise. *)
Definition defineConfig `{Runtime} (callback : Callback) : Outcome unit :=
  callback LBQ.register [].

(** A callback that calls [register] once per argument list, in order. *)
Definition register_each (calls : list (list Value)) : Callback :=
  λ register, foldr (λ args rest, register args ≫= λ _, rest) (mret ()) calls.

(** The rule a call of [register] creates, if it creates one. *)
Definition registered `{Runtime} (args : list Value) : option Action :=
  match LBQ.register args [] with
  | Returns _ actions => last actions
  | Throws _ _ => None
  end.

(** ** The configuration file

    What the process and the operating system supply to [env],
    [configFile] and [searchConfigFile]. *)

Class Host := {
  (** [process.platform] *)
  platform : string;
  (** [process.env] *)
  process_env : gmap string string;
  (** [os.homedir()] *)
  homedir : string;
  (** [path.join(...)] *)
  path_join : list string → string;
  (** [path.dirname(p)] *)
  path_dirname : string → string;
  (** [fs.existsSync(p)] *)
  existsSync : string → bool;
  (** [String.prototype.toUpperCase] *)
  toUpperCase : string → string
}.

(** The character classes [[a-z]] and [[A-Z]]. *)
Definition is_lowercase (c : ascii) : bool :=
  let n := nat_of_ascii c in (97 <=? n) && (n <=? 122).

Definition is_uppercase (c : ascii) : bool :=
  let n := nat_of_ascii c in (65 <=? n) && (n <=? 90).

(** [name.replace(/([a-z])([A-Z])/g, '$1_$2')]: after a replaced pair the
    search resumes behind it. *)
Fixpoint separate_humps (name : string) : string :=
  match name with
  | EmptyString => EmptyString
  | String c1 rest =>
      match rest with
      | String c2 rest' =>
          if is_lowercase c1 && is_uppercase c2
          then String c1 (String "_"%char (String c2 (separate_humps rest')))
          else String c1 (separate_humps rest)
      | EmptyString => String c1 EmptyString
      end
  end.

(** [a || b] on values of type [string | undefined]. *)
Definition or_else (a b : option string) : option string :=
  match a with
  | Some s => if String.eqb s "" then b else a
  | None => b
  end.

Section ConfigFile.
Context `{Runtime} `{Host}.

(** [env(name)] *)
Definition env (name : string) : option string :=
  let snakeName := toLowerCase (separate_humps name) in
  or_else
    (or_else (process_env !! ("npm_package_config_lbq_" +:+ name))
             (process_env !! ("npm_package_config_lbq_" +:+ snakeName)))
    (process_env !! ("LBQ_" +:+ toUpperCase snakeName)).

(** The array [candidates] of [searchConfigFile]. *)
Definition config_candidates : list string :=
  let fileName := "lbq/index.ts" in
  (if String.eqb platform "win32" then
     [path_join [default "" (or_else (process_env !! "LOCALAPPDATA") (Some ""));
                 fileName]]
   else if String.eqb platform "darwin" then
     [path_join [homedir; "Library"; "Preferences"; fileName]]
   else
     match or_else (process_env !! "XDG_CONFIG_HOME") None with
     | Some xdg => [xdg; fileName]
     | None => []
     end)
  ++ [path_join [homedir; ".config"; fileName]].

(** [searchConfigFile()]:
    [candidates.find(a => fs.existsSync(a)) || candidates[0]]. *)
Definition searchConfigFile : string :=
  let first := default "" (head config_candidates) in
  match List.find existsSync config_candidates with
  | Some a => if String.eqb a "" then first else a
  | None => first
  end.

(** [configFile()]: [env('configFile') || searchConfigFile()] *)
Definition configFile : string :=
  match env "configFile" with
  | Some s => if String.eqb s "" then searchConfigFile else s
  | None => searchConfigFile
  end.

End ConfigFile.

(** Some lowercase character is directly followed by an uppercase one. *)
Fixpoint has_hump (s : string) : bool :=
  match s with
  | EmptyString => false
  | String c1 rest =>
      match rest with
      | String c2 _ => (is_lowercase c1 && is_uppercase c2) || has_hump rest
      | EmptyString => false
      end
  end.

(** The string without its underscores. *)
Fixpoint without_underscores (s : string) : string :=
  match s with
  | EmptyString => EmptyString
  | String c rest =>
      if Ascii.eqb c "_"%char then without_underscores rest
      else String c (without_underscores rest)
  end.

(** ** The command line

    The script [cli.ts] as a function from the arguments to what the
    process does and its exit status. *)

(** An argument passed to a handler: a captured array or a raw token. *)
Inductive Argument :=
| MatchArg (m : RegExpMatchArray)
| TokenArg (token : string).

(** What importing the configuration file gave: no module ([null]), a
    module whose [default] is missing or not a function, or the callback. *)
Inductive Loaded :=
| ImportFailed
| DefaultNotCallable
| DefaultCallback (callback : Callback).

Inductive Event :=
| Stdout (line : string)
| Stderr (line : string)
| StderrValue (v : Value)
| Mkdir (dir : string)
| WriteFile (path text : string)
| LaunchEditor (dir : string)
| Invoke (f : JsFunction) (args : list Argument)
| Uncaught (e : JsError).

(** The event is the call of a handler. *)
Definition is_invoke (e : Event) : bool :=
  match e with Invoke _ _ => true | _ => false end.

(** What the script is run with, besides the host. *)
Class Cli := {
  (** [pkg.name], [pkg.version] *)
  pkg_name : string;
  pkg_version : string;
  (** the starter configuration written by [--edit] *)
  configFileText : string;
  (** [jiti.import(file).catch(() => null)] *)
  import_module : string → Loaded;
  (** running a handler: [None] when it completes, [Some err] when it
      throws or rejects with [err] *)
  invoke : JsFunction → list Argument → option Value;
  (** [cleanStack(stack)] *)
  cleanStack : string → string
}.

Record Flags := mkFlags {
  help : bool; version : bool; edit : bool; location : bool; list_flag : bool
}.

Section CommandLine.
Context `{Runtime} `{Host} `{Cli}.

(** The flags set from [args]. *)
Definition parse_flags (args : list string) : Flags :=
  match args with
  | [] => mkFlags true false false false false
  | [arg] =>
      mkFlags (String.eqb arg "-h" || String.eqb arg "--help")
              (String.eqb (toLowerCase arg) "-v" || String.eqb arg "--version")
              (String.eqb arg "--edit")
              (String.eqb arg "--location")
              (String.eqb arg "-l" || String.eqb arg "--list")
  | _ => mkFlags false false false false false
  end.

Definition helpText : string :=
  "Usage: " +:+ pkg_name +:+ " [--edit|--location|--list] command...

  " +:+ pkg_name +:+ " --edit       Open the configuration file in the default editor
  " +:+ pkg_name +:+ " --location   Print the path to the configuration file
  " +:+ pkg_name +:+ " --list       List all available actions
  " +:+ pkg_name +:+ " command...   Run the action that matches the input arguments
".

(** [logErrorAndExit(err)]: what is printed; the exit code becomes 1. *)
Definition logErrorAndExit (err : Value) : list Event :=
  if truthy err && JsType_eqb (typeof err) TObject
     && JsType_eqb (typeof (get_property "stack" err)) TString
  then
    match get_property "stack" err with
    | VString stack => [Stderr (cleanStack stack)]
    | _ => []
    end
  else if truthy err && JsType_eqb (typeof err) TObject
          && JsType_eqb (typeof (get_property "message" err)) TString
  then
    match get_property "message" err with
    | VString message => [Stderr message]
    | _ => []
    end
  else [StderrValue err].

(** The script from the import of the configuration on. *)
Definition load_and_run (flags : Flags) (args : list string)
    : list Event * nat :=
  match import_module configFile with
  | DefaultCallback callback =>
      match defineConfig callback with
      | Throws e _ => ([Uncaught e], 1)
      | Returns _ actions =>
          if list_flag flags then
            (Stdout "Available actions:"
               :: ((λ line, Stdout ("  " +:+ line)) <$> LBQ.list actions), 0)
          else
            match LBQ.find actions args with
            | None =>
                ([Stderr "No matching action found for the given arguments. Use --list to list all actions."], 1)
            | Some (action, matches, restArgs) =>
                let call :=
                  (MatchArg <$> matches) ++ (TokenArg <$> restArgs) in
                match invoke (run action) call with
                | None => ([Invoke (run action) call], 0)
                | Some err =>
                    (Invoke (run action) call :: logErrorAndExit err, 1)
                end
            end
      end
  | _ =>
      ([Stderr ("Error: No valid configuration found in " +:+ configFile)], 1)
  end.

(** What the script does before it decides to exit early: the output of
    [help], [version], [edit] and [location], in this order. *)
Definition early_events (flags : Flags) : list Event :=
  (if help flags then [Stdout helpText] else [])
  ++ (if version flags then [Stdout (pkg_name +:+ ", " +:+ pkg_version)]
      else [])
  ++ (if edit flags then
        let file := configFile in
        (if existsSync file then []
         else [Mkdir (path_dirname file); WriteFile file configFileText])
        ++ [LaunchEditor (path_dirname file)]
      else [])
  ++ (if location flags then [Stdout configFile] else []).

(** The whole script: the events in order and the exit status. *)
Definition main (args : list string) : list Event * nat :=
  let flags := parse_flags args in
  if help flags || version flags || edit flags || location flags
  then (early_events flags, 0)
  else
    let '(events, status) := load_and_run flags args in
    (early_events flags ++ events, status).

End CommandLine.

(** ** The post-build script

    [scripts/postbuild.ts] over a file system of regular files: a finite
    map from paths to content and mode.  The [fs] calls fail only for a
    missing file. *)

Record File := mkFile { content : string; mode : string }.

Inductive FsError := ENOENT (path : string).

(** The outcome of a script: it ends normally or throws; either way [fs] is
    what the file system holds afterwards. *)
Inductive FsOutcome (A : Type) :=
| FsReturns (result : A) (fs : gmap string File)
| FsThrows (error : FsError) (fs : gmap string File).
Arguments FsReturns {A} _ _.
Arguments FsThrows {A} _ _.

Definition FsM (A : Type) : Type := gmap string File → FsOutcome A.

Global Instance FsM_ret : MRet FsM := λ A x fs, FsReturns x fs.
Global Instance FsM_bind : MBind FsM := λ A B k m fs,
  match m fs with
  | FsReturns x fs' => k x fs'
  | FsThrows e fs' => FsThrows e fs'
  end.

(** [readFileSync(path, 'utf-8')] *)
Definition readFileSync (path : string) : FsM string := λ fs,
  match fs !! path with
  | Some file => FsReturns (content file) fs
  | None => FsThrows (ENOENT path) fs
  end.

(** [writeFileSync(path, data)]: an existing file keeps its mode, a new one
    gets the mode [644]. *)
Definition writeFileSync (path data : string) : FsM unit := λ fs,
  FsReturns ()
    (<[path := mkFile data (default "644" (mode <$> fs !! path))]> fs).

(** [chmodSync(path, mode)] *)
Definition chmodSync (path new_mode : string) : FsM unit := λ fs,
  match fs !! path with
  | Some file => FsReturns () (<[path := mkFile (content file) new_mode]> fs)
  | None => FsThrows (ENOENT path) fs
  end.

(** [unlinkSync(path)] *)
Definition unlinkSync (path : string) : FsM unit := λ fs,
  match fs !! path with
  | Some _ => FsReturns () (delete path fs)
  | None => FsThrows (ENOENT path) fs
  end.

Definition cliFile : string := "./dist/cli.js".

(** [['#!/usr/bin/env node', text].join('\n')] *)
Definition with_shebang (text : string) : string :=
  "#!/usr/bin/env node" +:+ String "010"%char text.

(** The script. *)
Definition postbuild : FsM unit :=
  text ← readFileSync cliFile;
  let content := with_shebang text in
  _ ← writeFileSync cliFile content;
  _ ← chmodSync cliFile "755";
  _ ← unlinkSync "./dist/cli.d.ts";
  _ ← unlinkSync "./dist/index.test.d.ts";
  unlinkSync "./dist/index.test.js".

(** The files the script removes. *)
Definition removed_files : list string :=
  ["./dist/cli.d.ts"; "./dist/index.test.d.ts"; "./dist/index.test.js"].

(** [cliFile] as the script leaves it. *)
Definition rewritten (old : File) : File :=
  mkFile (with_shebang (content old)) "755".

(** A build output to run the script on. *)
Definition sample_dist : gmap string File :=
  list_to_map
    [("./dist/cli.js", mkFile "import './index.js'" "644");
     ("./dist/cli.d.ts", mkFile "export {}" "644");
     ("./dist/index.js", mkFile "export class LBQ {}" "644");
     ("./dist/index.test.d.ts", mkFile "export {}" "644");
     ("./dist/index.test.js", mkFile "test.run()" "644")].

(** ** A sample host and command line

    A Linux machine with [XDG_CONFIG_HOME] set, paths joined with [/], and
    the configuration of [index.test.ts]; every handler completes. *)

Module SampleHost.

Definition upper_ascii (c : ascii) : ascii :=
  let n := nat_of_ascii c in
  if (97 <=? n) && (n <=? 122) then ascii_of_nat (n - 32) else c.

Fixpoint upper (s : string) : string :=
  match s with
  | EmptyString => EmptyString
  | String c s' => String (upper_ascii c) (upper s')
  end.

Fixpoint has_slash (s : string) : bool :=
  match s with
  | EmptyString => false
  | String c s' => Ascii.eqb c "/"%char || has_slash s'
  end.

Fixpoint dirname (s : string) : string :=
  match s with
  | EmptyString => EmptyString
  | String c s' => if has_slash s' then String c (dirname s') else EmptyString
  end.

#[export] Instance host : Host := {|
  platform := "linux";
  process_env := {[ "XDG_CONFIG_HOME" := "/home/u/.xdg" ]};
  homedir := "/home/u";
  path_join := String.concat "/";
  path_dirname := dirname;
  existsSync := λ p, String.eqb p "/home/u/.xdg";
  toUpperCase := upper
|}.

#[export] Instance cli : Cli := {|
  pkg_name := "@hyrious/lbq";
  pkg_version := "0.1.0";
  configFileText := "export default function install(register) {}";
  import_module := λ _, DefaultCallback (register_each Sample.test_calls);
  invoke := λ _ _, None;
  cleanStack := λ stack, stack
|}.

End SampleHost.

(** ** Regular expressions that keep no state

    [input.match(pattern)] reads and writes [pattern.lastIndex] only for a
    sticky expression (flag [y]): such an object matches from where its
    last match ended, so what it answers depends on the calls made before,
    and an object shared by two rules or two positions is tried from
    different places.  The statements about rules with regular expressions
    are made for rules without sticky expressions. *)

Fixpoint has_flag (flag : ascii) (text : string) : bool :=
  match text with
  | EmptyString => false
  | String c text' => Ascii.eqb c flag || has_flag flag text'
  end.

(** [r.sticky] *)
Definition sticky (r : RegExp) : bool := has_flag "y"%char (flags r).

Definition stateless_pattern (p : Pattern) : bool :=
  match p with
  | Literal _ => true
  | Regex r => negb (sticky r)
  end.

(** No pattern of the rule is a sticky regular expression. *)
Definition stateless_rule (a : Action) : bool :=
  forallb stateless_pattern (pattern_list (pattern a)).

(** A three-token sample rule: the literal, then any two tokens. *)
Definition hello_three : Action :=
  Action.new
    (Many [Literal "hello"; Regex (mkRegExp ".+" ""); Regex (mkRegExp ".+" "")])
    print_args None.

(** ** The tests of the repository

    [index.test.ts], run on the sample runtime. *)

Example test_hello :
  LBQ.find (registry_of (take 1 test_calls)) ["hello"]
    = Some (Action.new (Single (Literal "hello")) world (Some "Hello, world!"),
            [["hello"]], []).
Proof. reflexivity. Qed.

Example test_non_exist :
  LBQ.find (registry_of (take 1 test_calls)) ["non-exist"] = None.
Proof. reflexivity. Qed.

Example test_foobar :
  (λ '(_, captured, _), captured)
    <$> LBQ.find (registry_of (take 2 test_calls)) ["foo"; "bar"]
    = Some [["foo"]; ["bar"]].
Proof. reflexivity. Qed.

Example test_args :
  (λ '(_, captured, rest), (captured, rest))
    <$> LBQ.find (registry_of test_calls) ["args"; "one"; "two"; "three"]
    = Some ([["args"]], ["one"; "two"; "three"]).
Proof. reflexivity. Qed.

(** ** Matching *)

Section MatchingFacts.
Context `{Runtime}.

Lemma matches_unfold a argv r :
  Action.matches a argv r =
    if Action.length a =? 0 then (true, r)
    else match captures a argv with
         | Some out => (true, mkRef (Some out))
         | None => (false, r)
         end.
Proof.
  unfold Action.matches, captures.
  destruct (Action.length a =? 0); [done|].
  destruct (pattern a) as [p|ps].
  - destruct (Action.notMatch (argv !! 0) p []) as [[] out]; done.
  - destruct (Action.matches_from argv ps 0 []); done.
Qed.

Lemma matches_fst a argv r :
  fst (Action.matches a argv r) = is_match a argv.
Proof.
  unfold is_match. rewrite !matches_unfold.
  destruct (Action.length a =? 0); [done|].
  destruct (captures a argv); done.
Qed.

Lemma is_match_zero a argv : Action.length a = 0 → is_match a argv = true.
Proof.
  intros Hz. unfold is_match. rewrite matches_unfold, Hz. done.
Qed.

Lemma is_match_captures a argv :
  1 ≤ Action.length a →
  is_match a argv = true ↔ is_Some (captures a argv).
Proof.
  intros Hlen. unfold is_match. rewrite matches_unfold.
  destruct (Nat.eqb_spec (Action.length a) 0) as [?|_]; [lia|].
  destruct (captures a argv); simpl; split; intros Hx;
    try done; try (by eexists); by destruct Hx.
Qed.

Lemma notMatch_absent p out : Action.notMatch None p out = (true, out).
Proof. done. Qed.

(** Every successful position appends one array to [out]; a position past
    the end of [argv] stops the loop. *)
Lemma matches_from_length argv ps i out out' :
  Action.matches_from argv ps i out = Some out' →
  length out' = length out + length ps ∧
  (0 < length ps → i + length ps ≤ length argv).
Proof.
  revert i out. induction ps as [|p ps IH]; intros i out Hm; simpl in *.
  - simplify_eq. lia.
  - destruct (argv !! i) as [tok|] eqn:Htok; [|done].
    apply lookup_lt_Some in Htok.
    destruct (Action.notMatch (Some tok) p out) as [no out1] eqn:Hnm.
    destruct no; [done|].
    apply IH in Hm as [Hl Hi].
    assert (length out1 = S (length out)) as Hout1.
    { unfold Action.notMatch in Hnm. destruct p as [lit|re].
      - destruct (String.eqb _ _); simplify_eq.
        rewrite length_app. simpl. lia.
      - destruct (string_match tok re); simplify_eq.
        rewrite length_app. simpl. lia. }
    lia.
Qed.

Lemma captures_length a argv c :
  captures a argv = Some c →
  length c = Action.length a ∧ Action.length a ≤ length argv.
Proof.
  unfold captures, Action.length. destruct (pattern a) as [p|ps].
  - destruct (argv !! 0) as [tok|] eqn:Htok; [|done].
    apply lookup_lt_Some in Htok.
    unfold Action.notMatch. destruct p as [lit|re].
    + destruct (String.eqb _ _); intros; simplify_eq. simpl. lia.
    + destruct (string_match tok re); intros; simplify_eq. simpl. lia.
  - intros Hm. apply matches_from_length in Hm. simpl in Hm. lia.
Qed.

Lemma is_match_short a argv :
  length argv < Action.length a → is_match a argv = false.
Proof.
  intros Hlt. destruct (is_match a argv) eqn:Hm; [|done].
  apply is_match_captures in Hm as [c Hc]; [|lia].
  apply captures_length in Hc. lia.
Qed.

End MatchingFacts.

(** ** The selection loop of [find] *)

Section FindFacts.
Context `{Runtime}.

Lemma matches_spec a argv r :
  Action.matches a argv r =
    (is_match a argv,
     if is_match a argv
     then if Action.length a =? 0 then r else mkRef (captures a argv)
     else r).
Proof.
  unfold is_match. rewrite !matches_unfold.
  destruct (Action.length a =? 0); [done|].
  destruct (captures a argv); done.
Qed.

Lemma first_longest_snoc_new argv seen b :
  is_match b argv = true →
  (∀ j c, seen !! j = Some c → is_match c argv = true →
     Action.length c < Action.length b) →
  first_longest argv (seen ++ [b]) (length seen) b.
Proof.
  intros Hb Hseen. split_and!.
  - by rewrite lookup_app_r, Nat.sub_diag by lia.
  - done.
  - intros j c [[Hj Hc]|[-> <-]]%lookup_snoc_Some Hm.
    + specialize (Hseen j c Hc Hm). lia.
    + lia.
Qed.

Lemma first_longest_snoc_keep argv seen i a b :
  first_longest argv seen i a →
  (is_match b argv = true → Action.length b ≤ Action.length a) →
  first_longest argv (seen ++ [b]) i a.
Proof.
  intros (Hi & Ha & Hall) Hb.
  pose proof (lookup_lt_Some _ _ _ Hi) as Hlt. split_and!.
  - by rewrite lookup_app_l.
  - done.
  - intros j c [[Hj Hc]|[-> <-]]%lookup_snoc_Some Hm.
    + by apply Hall.
    + split; [by apply Hb | lia].
Qed.

Lemma find_step_inv argv seen st b :
  find_inv argv seen st →
  find_inv argv (seen ++ [b]) (LBQ.find_step argv st b).
Proof.
  destruct st as [[[a|] maxLength] actionArgs]; simpl.
  - intros (-> & [i Hfl] & Hval).
    destruct (Nat.ltb_spec (Action.length a) (Action.length b)) as [Hlt|Hge].
    + rewrite matches_spec. destruct (is_match b argv) eqn:Hb.
      * simpl.
        destruct (Nat.eqb_spec (Action.length b) 0) as [?|_]; [lia|].
        split_and!; [done| |done].
        exists (length seen). apply first_longest_snoc_new; [done|].
        intros j c Hc Hm. destruct Hfl as (_ & _ & Hall).
        specialize (Hall j c Hc Hm). lia.
      * simpl. split_and!; [done| |done].
        exists i. apply first_longest_snoc_keep; [done|]. congruence.
    + simpl. split_and!; [done| |done].
      exists i. apply first_longest_snoc_keep; [done|]. lia.
  - intros (-> & Hval & Hnone).
    rewrite matches_spec. destruct (is_match b argv) eqn:Hb.
    + simpl. split_and!; [done| |].
      * exists (length seen). apply first_longest_snoc_new; [done|].
        intros j c Hc Hm. specialize (Hnone j c Hc). congruence.
      * destruct (Action.length b =? 0); done.
    + simpl. split_and!; [done|done|].
      intros j c [[Hj Hc]|[-> <-]]%lookup_snoc_Some; [by eapply Hnone|done].
Qed.

Lemma find_loop_inv argv actions :
  find_inv argv actions (LBQ.find_loop argv actions (None, 0, mkRef None)).
Proof.
  unfold LBQ.find_loop.
  induction actions as [|b seen IH] using rev_ind.
  - simpl. split_and!; [done|done|]. intros j b Hb. by destruct j.
  - rewrite foldl_snoc. by apply find_step_inv.
Qed.

(** Two rules that are both first-longest are the same rule. *)
Lemma first_longest_unique argv actions i a j b :
  first_longest argv actions i a → first_longest argv actions j b →
  i = j ∧ a = b.
Proof.
  intros (Hi & Ha & Halla) (Hj & Hb & Hallb).
  destruct (Halla j b Hj Hb) as [Hle1 Hlt1].
  destruct (Hallb i a Hi Ha) as [Hle2 Hlt2].
  assert (i = j) as -> by lia. split; [done|congruence].
Qed.

(** [find] returns exactly the first-longest matching rule, provided it
    has at least one pattern. *)
Lemma find_first_longest argv actions i a :
  first_longest argv actions i a → 1 ≤ Action.length a →
  ∃ c, captures a argv = Some c ∧
       LBQ.find actions argv = Some (a, c, drop (Action.length a) argv).
Proof.
  intros Hfl Hlen.
  pose proof (find_loop_inv argv actions) as Hinv.
  unfold LBQ.find.
  destruct (LBQ.find_loop argv actions (None, 0, mkRef None))
    as [[[a'|] maxLength] actionArgs]; simpl in Hinv.
  - destruct Hinv as (-> & [j Hfl'] & Hval).
    destruct (first_longest_unique _ _ _ _ _ _ Hfl Hfl') as [-> ->].
    destruct Hfl' as (_ & Hm & _).
    apply is_match_captures in Hm as [c Hc]; [|done].
    destruct (Nat.eqb_spec (Action.length a') 0) as [?|_]; [lia|].
    exists c. rewrite Hval, Hc. done.
  - destruct Hinv as (_ & _ & Hnone).
    destruct Hfl as (Hi & Hm & _). specialize (Hnone i a Hi). congruence.
Qed.

(** Whatever [find] returns is the first-longest matching rule, it has at
    least one pattern, and the leftover is [argv] without the matched
    prefix. *)
Lemma find_Some_inv argv actions a c rest :
  LBQ.find actions argv = Some (a, c, rest) →
  (∃ i, first_longest argv actions i a) ∧ 1 ≤ Action.length a ∧
  captures a argv = Some c ∧ rest = drop (Action.length a) argv.
Proof.
  pose proof (find_loop_inv argv actions) as Hinv.
  unfold LBQ.find.
  destruct (LBQ.find_loop argv actions (None, 0, mkRef None))
    as [[[a'|] maxLength] actionArgs]; simpl in Hinv; [|done].
  destruct Hinv as (-> & Hfl & Hval).
  destruct (value actionArgs) as [args|] eqn:Hargs; [|done].
  intros [= -> -> <-].
  destruct (Nat.eqb_spec (Action.length a) 0) as [?|Hne]; [done|].
  split_and!; [done|lia|done|done].
Qed.

(** [find] answers [undefined] exactly when no rule with at least one
    pattern matches. *)
Lemma find_None argv actions :
  LBQ.find actions argv = None ↔
  ∀ b, b ∈ actions → is_match b argv = true → Action.length b = 0.
Proof.
  split.
  - intros Hnone b Hb Hm.
    destruct (Nat.eq_dec (Action.length b) 0) as [|Hne]; [done|exfalso].
    pose proof (find_loop_inv argv actions) as Hinv.
    unfold LBQ.find in Hnone.
    apply list_elem_of_lookup_1 in Hb as [j Hj].
    destruct (LBQ.find_loop argv actions (None, 0, mkRef None))
      as [[[a'|] maxLength] actionArgs]; simpl in Hinv.
    + destruct Hinv as (-> & [i (_ & Hma & Hall)] & Hval).
      destruct (Hall j b Hj Hm) as [Hle _].
      destruct (Nat.eqb_spec (Action.length a') 0) as [?|_]; [lia|].
      assert (is_Some (captures a' argv)) as [c Hc].
      { apply is_match_captures; [lia|done]. }
      rewrite Hval, Hc in Hnone. done.
    + destruct Hinv as (_ & _ & Hno). specialize (Hno j b Hj). congruence.
  - intros Hall. destruct (LBQ.find actions argv) as [[[a c] rest]|] eqn:Hf;
      [exfalso|done].
    apply find_Some_inv in Hf as ([i (Hi & Hm & _)] & Hlen & _).
    apply list_elem_of_lookup_2 in Hi. specialize (Hall a Hi Hm). lia.
Qed.

End FindFacts.

(** For a rule with at least one pattern, what a successful [matches]
    writes into [result] is the captured data. *)
Lemma matches_stores `{Runtime} a argv r c :
  1 ≤ Action.length a →
  Action.matches a argv r = (true, mkRef (Some c)) ↔ captures a argv = Some c.
Proof.
  intros Hlen. rewrite matches_unfold.
  destruct (Nat.eqb_spec (Action.length a) 0) as [?|_]; [lia|].
  destruct (captures a argv) as [out|]; split; intros Heq; by simplify_eq.
Qed.

(** ** Dispatch: the statements of the specification *)

(** C1 (the code departs from the claim).  Whenever a rule without
    patterns is the longest rule matching [argv] -- it does match, and no
    matching rule of the registry is longer -- [find] answers [undefined]:
    [matches] returns [true] for it without writing [result.value], and
    [find] requires [actionArgs.value].  The claim expects the rule, empty
    captures and the whole [argv] instead. *)
Theorem find_zero_length_longest_is_undefined `{Runtime}
    (actions : list Action) (argv : list string) (z : Action) :
  z ∈ actions → Action.length z = 0 →
  (∀ b, b ∈ actions → is_match b argv = true →
        Action.length b ≤ Action.length z) →
  is_match z argv = true ∧ LBQ.find actions argv = None.
Proof.
  intros Hz Hlen Hmax. split; [by apply is_match_zero|].
  apply find_None. intros b Hb Hm. specialize (Hmax b Hb Hm). lia.
Qed.

Lemma find_zero_length_longest_is_undefined_witness :
  catch_all ∈ [catch_all] ∧ Action.length catch_all = 0 ∧
  (∀ b, b ∈ [catch_all] → is_match b ["x"] = true →
        Action.length b ≤ Action.length catch_all) ∧
  is_match catch_all ["x"] = true ∧ LBQ.find [catch_all] ["x"] = None.
Proof.
  assert (∀ b, b ∈ [catch_all] → is_match b ["x"] = true →
               Action.length b ≤ Action.length catch_all) as Hmax.
  { intros b ->%list_elem_of_singleton _. apply le_n. }
  split; [apply list_elem_of_here|]. split; [reflexivity|].
  split; [exact Hmax|].
  exact (find_zero_length_longest_is_undefined [catch_all] ["x"] catch_all
           (list_elem_of_here _ _) eq_refl Hmax).
Defined.

(** C3 (the claim as stated fails).  With a one-token, a two-token and a
    three-token rule that all match, the two-token rule is longer than the
    one-token rule and both match, yet [find] returns the three-token
    rule. *)
Lemma longer_rule_is_not_always_returned :
  [hello; hello_any; hello_three] !! 1 = Some hello_any ∧
  [hello; hello_any; hello_three] !! 0 = Some hello ∧
  Action.length hello < Action.length hello_any ∧
  is_match hello_any ["hello"; "big"; "world"] = true ∧
  is_match hello ["hello"; "big"; "world"] = true ∧
  LBQ.find [hello; hello_any; hello_three] ["hello"; "big"; "world"]
    = Some (hello_three, [["hello"]; ["big"]; ["world"]], []) ∧
  hello_three ≠ hello_any.
Proof.
  split; [reflexivity|]. split; [reflexivity|].
  split; [vm_compute; lia|]. split; [reflexivity|]. split; [reflexivity|].
  split; [reflexivity|]. discriminate.
Qed.

(** C3 (amended).  In every registry without sticky regular expressions
    that holds a rule [r1] and a shorter rule [r2] both matching [argv],
    wherever the two were registered, [find] returns a matching rule at
    least as long as [r1], hence never [r2]; and when [r1] is the longest
    match (every other matching rule is shorter), [find] returns [r1] with
    the data [matches] captured for it and the tokens after its prefix. *)
Theorem longest_match_wins `{Runtime}
    (actions : list Action) (argv : list string) (i j : nat) (r1 r2 : Action) :
  Forall (λ a, stateless_rule a = true) actions →
  actions !! i = Some r1 → actions !! j = Some r2 →
  Action.length r2 < Action.length r1 →
  is_match r1 argv = true → is_match r2 argv = true →
  (∃ a c, LBQ.find actions argv = Some (a, c, drop (Action.length a) argv) ∧
          a ∈ actions ∧ is_match a argv = true ∧
          Action.length r1 ≤ Action.length a) ∧
  ((∀ k b, k ≠ i → actions !! k = Some b → is_match b argv = true →
           Action.length b < Action.length r1) →
   ∃ c, Action.matches r1 argv (mkRef None) = (true, mkRef (Some c)) ∧
        LBQ.find actions argv = Some (r1, c, drop (Action.length r1) argv)).
Proof.
  intros _ Hi Hj Hlt Hm1 Hm2. split.
  - destruct (LBQ.find actions argv) as [[[a c] rest]|] eqn:Hf.
    + apply find_Some_inv in Hf as ([k (Hk & Hma & Hall)] & _ & _ & ->).
      exists a, c. split_and!; [done| |done|].
      * by eapply list_elem_of_lookup_2.
      * by destruct (Hall i r1 Hi Hm1).
    + rewrite find_None in Hf.
      apply list_elem_of_lookup_2 in Hi. specialize (Hf r1 Hi Hm1). lia.
  - intros Hothers.
    destruct (find_first_longest argv actions i r1) as (c & Hc & Hfind);
      [|lia|].
    + split_and!; [done|done|]. intros k b Hk Hmb.
      destruct (decide (k = i)) as [->|Hne].
      * simplify_eq. lia.
      * specialize (Hothers k b Hne Hk Hmb). lia.
    + exists c. split; [|done]. apply matches_stores; [lia|done].
Qed.

Lemma longest_match_wins_witness :
  Forall (λ a, stateless_rule a = true) [hello; hello_any] ∧
  LBQ.find [hello; hello_any] ["hello"; "world"]
    = Some (hello_any, [["hello"]; ["world"]], []) ∧
  LBQ.find [hello_any; hello] ["hello"; "world"]
    = Some (hello_any, [["hello"]; ["world"]], []).
Proof.
  assert (Forall (λ a, stateless_rule a = true) [hello; hello_any]) as Hno
    by (repeat constructor).
  assert (Forall (λ a, stateless_rule a = true) [hello_any; hello]) as Hno'
    by (repeat constructor).
  split; [exact Hno|]. split.
  - destruct (longest_match_wins (H := runtime)
                [hello; hello_any] ["hello"; "world"] 1 0 hello_any hello Hno)
      as [_ Hexact];
      [reflexivity|reflexivity|vm_compute; lia|reflexivity|reflexivity|].
    destruct Hexact as (c & Hc & Hfind).
    + intros [|[|k]] b Hk Hb Hm; [|done|done].
      injection Hb as <-. vm_compute. lia.
    + injection Hc as <-. exact Hfind.
  - destruct (longest_match_wins (H := runtime)
                [hello_any; hello] ["hello"; "world"] 0 1 hello_any hello Hno')
      as [_ Hexact];
      [reflexivity|reflexivity|vm_compute; lia|reflexivity|reflexivity|].
    destruct Hexact as (c & Hc & Hfind).
    + intros [|[|k]] b Hk Hb Hm; [done| |done].
      injection Hb as <-. vm_compute. lia.
    + injection Hc as <-. exact Hfind.
Defined.

(** C5.  For a literal pattern [P] and a present token [T], [notMatch]
    reports a match exactly when [P.toLowerCase()] equals [T.toLowerCase()],
    and then the array pushed for the position is [[T]], the token as typed;
    otherwise nothing is pushed. *)
Theorem notMatch_literal `{Runtime}
    (P T : string) (out : list RegExpMatchArray) :
  (fst (Action.notMatch (Some T) (Literal P) out) = false
     ↔ toLowerCase P = toLowerCase T) ∧
  (Action.notMatch (Some T) (Literal P) out = (false, out ++ [[T]])
     ↔ toLowerCase P = toLowerCase T) ∧
  (Action.notMatch (Some T) (Literal P) out = (true, out)
     ↔ toLowerCase P ≠ toLowerCase T).
Proof.
  unfold Action.notMatch.
  destruct (String.eqb_spec (toLowerCase T) (toLowerCase P)) as [Heq|Hne];
    simpl; split_and!; split; intros; congruence.
Qed.

(** C7.  When [argv] has fewer tokens than the rule [r] has patterns: every
    position at or past the end of [argv] is a no-match for [notMatch],
    [matches] answers [false] and leaves [result] alone, and [find] does not
    return [r], whatever else the registry holds. *)
Theorem short_argv_never_selected `{Runtime}
    (r : Action) (argv : list string) :
  length argv < Action.length r →
  (∀ i p out, length argv ≤ i →
     Action.notMatch (argv !! i) p out = (true, out)) ∧
  (∀ result, Action.matches r argv result = (false, result)) ∧
  (∀ actions c rest, LBQ.find actions argv ≠ Some (r, c, rest)).
Proof.
  intros Hshort. split_and!.
  - intros i p out Hi. by rewrite lookup_ge_None_2.
  - intros result. rewrite matches_spec, is_match_short; done.
  - intros actions c rest Hf.
    apply find_Some_inv in Hf as (_ & _ & Hc & _).
    apply captures_length in Hc. lia.
Qed.

Lemma short_argv_never_selected_witness :
  length ["hello"] < Action.length hello_any ∧
  Action.notMatch (["hello"] !! 1) (Regex (mkRegExp ".+" "")) [["hello"]]
    = (true, [["hello"]]) ∧
  Action.matches hello_any ["hello"] (mkRef None) = (false, mkRef None) ∧
  LBQ.find [hello; hello_any] ["hello"] ≠ Some (hello_any, [["hello"]], []).
Proof.
  pose proof (short_argv_never_selected hello_any ["hello"] (le_n 2))
    as (Hpos & Hmatches & Hfind).
  split; [apply le_n|]. split; [apply Hpos, le_n|].
  split; [apply Hmatches|apply Hfind].
Defined.

(** ** Registration *)

Section RegisterFacts.
Context `{Runtime}.

Lemma functions_of_cons v vs :
  functions_of (v :: vs) =
    match v with
    | VFunction f => f :: functions_of vs
    | _ => functions_of vs
    end.
Proof. by destruct v. Qed.


Lemma strings_of_cons v vs :
  strings_of (v :: vs) =
    match v with
    | VString s => s :: strings_of vs
    | _ => strings_of vs
    end.
Proof. by destruct v. Qed.

Lemma scan_run_description_fold vs run description :
  foldl LBQ.scan_run_description (run, description) vs =
    (match last (functions_of vs) with Some f => Some f | None => run end,
     match last (strings_of vs) with Some s => Some s | None => description end).
Proof.
  revert run description.
  induction vs as [|v vs IH]; intros run description; [done|].
  cbn [foldl]. rewrite functions_of_cons, strings_of_cons.
  destruct v; cbn [LBQ.scan_run_description]; rewrite IH; try done;
    rewrite last_cons;
    by destruct (last (functions_of vs)), (last (strings_of vs)).
Qed.

Lemma getRunAndDescription_spec args start actions :
  LBQ._getRunAndDescription args start actions =
    match last (functions_of (drop start args)) with
    | None => Throws (Error "No action provided in register()") actions
    | Some f => Returns (f, last (strings_of (drop start args))) actions
    end.
Proof.
  unfold LBQ._getRunAndDescription.
  rewrite scan_run_description_fold.
  destruct (last (functions_of _)); [|done].
  by destruct (last (strings_of _)).
Qed.

(** What the guard [isActionDefinition] establishes for the casts that
    follow it in [register]. *)
Lemma isActionDefinition_shape obj :
  isActionDefinition obj = true →
  (∃ f, get_property "run" obj = VFunction f) ∧
  supported_shape (get_property "pattern" obj) = true.
Proof.
  unfold isActionDefinition, supported_shape, is_pattern.
  destruct (truthy obj && JsType_eqb (typeof obj) TObject
            && has_property "pattern" obj && has_property "run" obj); [|done].
  intros [Hpat Hrun]%andb_prop. split.
  - destruct (get_property "run" obj); try done. by eexists.
  - destruct (get_property "pattern" obj); try done.
Qed.

Lemma scan_patterns_spec rest end_ :
  LBQ.scan_patterns rest end_ = end_ + length (leading_patterns rest).
Proof.
  revert end_. induction rest as [|v rest IH]; intros end_; simpl; [lia|].
  unfold is_pattern.
  destruct v; simpl; try lia; rewrite IH; lia.
Qed.

(** [register] without the loops: which branch runs and what it does. *)
Lemma register_unfold args actions :
  LBQ.register args actions =
    let first := arg_at args 0 in
    if negb (truthy first) then
      match last (functions_of args) with
      | None => Throws (Error "No action provided in register()") actions
      | Some f =>
          Returns ()
            (actions ++ [Action.new (Many []) f (last (strings_of args))])
      end
    else if isActionDefinition first then
      Returns ()
        (actions ++
         [Action.new (as_pattern_spec (get_property "pattern" first))
            (match get_property "run" first with
             | VFunction f => f
             | _ => mkFunction 0 ""
             end)
            (toString (get_property "description" first))])
    else if is_pattern first then
      let end_ := 1 + length (leading_patterns (drop 1 args)) in
      match last (functions_of (drop end_ args)) with
      | None => Throws (Error "No action provided in register()") actions
      | Some f =>
          Returns ()
            (actions ++
             [Action.new
                (if end_ =? 1 then as_pattern_spec first
                 else Many (as_patterns (take end_ args)))
                f (last (strings_of (drop end_ args)))])
      end
    else Throws (TypeError "Invalid arguments in register()") actions.
Proof.
  unfold LBQ.register. cbv zeta.
  destruct (negb (truthy (arg_at args 0))).
  { unfold mbind, M_bind. rewrite getRunAndDescription_spec, drop_0.
    by destruct (last (functions_of args)). }
  destruct (isActionDefinition (arg_at args 0)); [done|].
  fold (is_pattern (arg_at args 0)).
  destruct (is_pattern (arg_at args 0)); [|done].
  unfold mbind, M_bind.
  rewrite getRunAndDescription_spec, scan_patterns_spec.
  by destruct (last (functions_of _)).
Qed.

(** A call either appends one rule or throws, the registry plays no part
    in which, and a throwing call leaves the registry as it was. *)
Lemma register_cases args :
  (∃ a, ∀ actions, LBQ.register args actions = Returns () (actions ++ [a])) ∨
  (∃ e, ∀ actions, LBQ.register args actions = Throws e actions).
Proof.
  destruct (negb (truthy (arg_at args 0))) eqn:Hfalsy.
  { destruct (last (functions_of args)) as [f|] eqn:Hf.
    - left. eexists. intros actions.
      rewrite register_unfold. cbv zeta. by rewrite Hfalsy, Hf.
    - right. eexists. intros actions.
      rewrite register_unfold. cbv zeta. by rewrite Hfalsy, Hf. }
  destruct (isActionDefinition (arg_at args 0)) eqn:Hdef.
  { left. eexists. intros actions.
    rewrite register_unfold. cbv zeta. by rewrite Hfalsy, Hdef. }
  destruct (is_pattern (arg_at args 0)) eqn:Hpat.
  - destruct (last (functions_of
                (drop (1 + length (leading_patterns (drop 1 args))) args)))
      as [f|] eqn:Hf.
    + left. eexists. intros actions.
      rewrite register_unfold. cbv zeta. by rewrite Hfalsy, Hdef, Hpat, Hf.
    + right. eexists. intros actions.
      rewrite register_unfold. cbv zeta. by rewrite Hfalsy, Hdef, Hpat, Hf.
  - right. eexists. intros actions.
    rewrite register_unfold. cbv zeta. by rewrite Hfalsy, Hdef, Hpat.
Qed.





Lemma leading_patterns_app pats v tail :
  forallb is_pattern pats = true → is_pattern v = false →
  leading_patterns (pats ++ v :: tail) = pats.
Proof.
  intros Hall Hv. induction pats as [|p pats IH]; simpl in *.
  - by rewrite Hv.
  - apply andb_prop in Hall as [-> Hall]. by rewrite IH.
Qed.

Lemma as_patterns_length vs :
  forallb is_pattern vs = true → length (as_patterns vs) = length vs.
Proof.
  unfold as_patterns. induction vs as [|v vs IH]; [done|].
  simpl. intros [Hv Hall]%andb_prop.
  destruct v; try done; simpl; f_equal; by apply IH.
Qed.

End RegisterFacts.

(** ** Registration: the statements of the specification *)

(** C2 (the claim as stated fails).  [register(run)] and
    [register(run, description)] throw: a callable first argument is truthy,
    is no definition object and is no pattern. *)
Lemma register_run_first_throws :
  LBQ.register [VFunction world] []
    = Throws (TypeError "Invalid arguments in register()") [] ∧
  LBQ.register [VFunction world; VString "fallback"] []
    = Throws (TypeError "Invalid arguments in register()") [].
Proof. split; reflexivity. Qed.

(** C2 (amended).  A call whose first argument is callable throws the
    invalid-arguments [TypeError] and leaves the registry as it was; a rule
    without patterns is registered when the first argument is falsy
    ([undefined], [null], the empty string, ...) and a callable follows: the
    last callable becomes the handler. *)
Theorem register_catch_all_needs_falsy_first `{Runtime}
    (f g : JsFunction) (first : Value) (rest rest' : list Value)
    (actions : list Action) :
  truthy first = false → last (functions_of rest') = Some g →
  LBQ.register (VFunction f :: rest) actions
    = Throws (TypeError "Invalid arguments in register()") actions ∧
  ∃ a, LBQ.register (first :: rest') actions = Returns () (actions ++ [a]) ∧
       pattern a = Many [] ∧ Action.length a = 0 ∧ run a = g.
Proof.
  intros Hfalsy Hg. split; [done|].
  rewrite register_unfold. cbv zeta.
  change (arg_at (first :: rest') 0) with first. rewrite Hfalsy. simpl negb.
  rewrite functions_of_cons.
  assert (functions_of (first :: rest') = functions_of rest') as Hfs.
  { rewrite functions_of_cons. by destruct first. }
  rewrite functions_of_cons in Hfs. rewrite Hfs, Hg.
  eexists. split; [done|]. done.
Qed.

Lemma register_catch_all_needs_falsy_first_witness :
  truthy VUndefined = false ∧
  last (functions_of [VFunction print_args; VString "fallback"])
    = Some print_args ∧
  LBQ.register [VFunction world; VString "fallback"] [hello]
    = Throws (TypeError "Invalid arguments in register()") [hello] ∧
  ∃ a, LBQ.register [VUndefined; VFunction print_args; VString "fallback"]
         [hello] = Returns () ([hello] ++ [a]) ∧
       pattern a = Many [] ∧ Action.length a = 0 ∧ run a = print_args.
Proof.
  split; [reflexivity|]. split; [reflexivity|].
  exact (register_catch_all_needs_falsy_first world print_args VUndefined
           [VString "fallback"] [VFunction print_args; VString "fallback"]
           [hello] eq_refl eq_refl).
Defined.

(** C6 (the claim as stated fails).  With two callables after the patterns
    the handler is the second one, not the first. *)
Lemma register_handler_is_not_first_callable :
  ∃ a, LBQ.register
         [VString "a"; VString "b"; VFunction world; VFunction foobar] []
         = Returns () [a] ∧
       pattern a = Many [Literal "a"; Literal "b"] ∧
       run a = foobar ∧ run a ≠ world.
Proof.
  exists (Action.new (Many [Literal "a"; Literal "b"]) foobar None).
  split; [reflexivity|]. split; [reflexivity|].
  split; [reflexivity|]. discriminate.
Qed.

(** C6 (amended).  In a call whose first argument is a non-empty string or a
    regular expression, followed by further strings and regular expressions
    up to a first callable: the leading strings and regular expressions are
    the pattern sequence; the handler is the last callable from the first
    one on (the first one when no other follows); the description is the
    last string after the first callable, an empty or absent one giving the
    handler's collapsed source text. *)
Theorem register_positional `{Runtime}
    (first : Value) (pats tail : list Value) (f : JsFunction)
    (actions : list Action) :
  is_pattern first = true → truthy first = true →
  forallb is_pattern pats = true →
  ∃ a, LBQ.register (first :: pats ++ VFunction f :: tail) actions
         = Returns () (actions ++ [a]) ∧
       pattern_list (pattern a) = as_patterns (first :: pats) ∧
       length (pattern_list (pattern a)) = S (length pats) ∧
       run a = default f (last (functions_of tail)) ∧
       description a =
         (let given := default "" (last (strings_of tail)) in
          if String.eqb given "" then collapse_whitespace (fn_source (run a))
          else given).
Proof.
  intros Hfirst Htruthy Hpats.
  rewrite register_unfold. cbv zeta.
  change (arg_at (first :: pats ++ VFunction f :: tail) 0) with first.
  rewrite Htruthy, Hfirst. simpl negb.
  assert (isActionDefinition first = false) as ->.
  { destruct first; try done.
    unfold isActionDefinition. simpl. by rewrite andb_false_r. }
  change (drop 1 (first :: pats ++ VFunction f :: tail))
    with (pats ++ VFunction f :: tail).
  rewrite leading_patterns_app by done.
  change (drop (1 + length pats) (first :: pats ++ VFunction f :: tail))
    with (drop (length pats) (pats ++ VFunction f :: tail)).
  change (take (1 + length pats) (first :: pats ++ VFunction f :: tail))
    with (first :: take (length pats) (pats ++ VFunction f :: tail)).
  rewrite drop_app_length, take_app_length.
  rewrite functions_of_cons, strings_of_cons, last_cons.
  assert (match last (functions_of tail) with
          | Some y => Some y
          | None => Some f
          end = Some (default f (last (functions_of tail)))) as ->
    by (by destruct (last (functions_of tail))).
  eexists. split; [reflexivity|].
  unfold Action.new. cbn [pattern run description].
  assert (length (as_patterns (first :: pats)) = S (length pats)) as Hlen.
  { rewrite as_patterns_length; [done|]. simpl. by rewrite Hfirst. }
  assert (pattern_list
            (if 1 + length pats =? 1 then as_pattern_spec first
             else Many (as_patterns (first :: pats)))
          = as_patterns (first :: pats)) as ->.
  { destruct pats as [|p pats]; [|done]. by destruct first. }
  split_and!; done.
Qed.

Lemma register_positional_witness :
  is_pattern (VString "foo") = true ∧ truthy (VString "foo") = true ∧
  forallb is_pattern [VRegExp (mkRegExp "bar" "")] = true ∧
  ∃ a, LBQ.register
         [VString "foo"; VRegExp (mkRegExp "bar" ""); VFunction world;
          VString "first"; VFunction foobar; VString "second"] []
         = Returns () ([] ++ [a]) ∧
       pattern_list (pattern a)
         = [Literal "foo"; Regex (mkRegExp "bar" "")] ∧
       length (pattern_list (pattern a)) = 2 ∧
       run a = foobar ∧ description a = "second".
Proof.
  split; [reflexivity|]. split; [reflexivity|]. split; [reflexivity|].
  exact (register_positional (VString "foo") [VRegExp (mkRegExp "bar" "")]
           [VString "first"; VFunction foobar; VString "second"] world []
           eq_refl eq_refl eq_refl).
Defined.

(** C10.  [register('', ...rest)]: the empty string is falsy, so the call
    takes the branch of an absent first argument.  It registers a rule
    without patterns (not a rule with the literal pattern ['']) whose
    handler is the last callable of [rest], and throws when [rest] holds no
    callable; [register('', run)] registers the catch-all of [run]. *)
Theorem register_empty_string_first `{Runtime}
    (rest : list Value) (run : JsFunction) (actions : list Action) :
  LBQ.register (VString "" :: rest) actions =
    match last (functions_of rest) with
    | Some f =>
        Returns ()
          (actions ++
           [Action.new (Many []) f (Some (default "" (last (strings_of rest))))])
    | None => Throws (Error "No action provided in register()") actions
    end ∧
  LBQ.register [VString ""; VFunction run] actions
    = Returns () (actions ++ [Action.new (Many []) run None]) ∧
  Action.length (Action.new (Many []) run None) = 0 ∧
  pattern (Action.new (Many []) run None) ≠ Single (Literal "").
Proof.
  split_and!; [|done|done|done].
  rewrite register_unfold. cbv zeta.
  change (arg_at (VString "" :: rest) 0) with (VString "").
  simpl truthy. simpl negb. cbv iota.
  rewrite functions_of_cons, strings_of_cons, last_cons.
  destruct (last (functions_of rest)); [|done].
  by destruct (last (strings_of rest)).
Qed.



(** C4 (the code departs from the claim).  Registering twice with the same
    empty pattern sequence succeeds both times and appends two rules, both
    of which match any [argv]; but [find] then answers [undefined] instead
    of the rule registered first. *)
Theorem duplicate_catch_alls_are_never_found `{Runtime}
    (f1 f2 : JsFunction) (argv : list string) :
  let definition run :=
    [VObject [("pattern", VArray []); ("run", VFunction run)]] in
  let a1 := Action.new (Many []) f1 None in
  let a2 := Action.new (Many []) f2 None in
  LBQ.register (definition f1) [] = Returns () [a1] ∧
  LBQ.register (definition f2) [a1] = Returns () [a1; a2] ∧
  pattern a1 = pattern a2 ∧
  is_match a1 argv = true ∧ is_match a2 argv = true ∧
  LBQ.find [a1; a2] argv = None.
Proof. repeat split. Qed.

(** Registration does not look at the registry: the same arguments give the
    same rule or the same error whatever was registered before, so a rule
    whose patterns are already registered is appended all the same. *)
Lemma register_ignores_registry `{Runtime} args actions1 actions2 :
  match LBQ.register args actions1 with
  | Returns _ actions' =>
      ∃ a, actions' = actions1 ++ [a] ∧
           LBQ.register args actions2 = Returns () (actions2 ++ [a])
  | Throws e actions' =>
      actions' = actions1 ∧ LBQ.register args actions2 = Throws e actions2
  end.
Proof.
  destruct (register_cases args) as [[a Ha]|[e He]].
  - rewrite Ha. exists a. by rewrite Ha.
  - rewrite He. by rewrite He.
Qed.

(** Among the matching rules of greatest length, at least one pattern long,
    the first registered is returned. *)
Lemma find_tie_first_registered `{Runtime} actions argv i j a b :
  actions !! i = Some a → actions !! j = Some b → i < j →
  Action.length a = Action.length b → 1 ≤ Action.length a →
  is_match a argv = true → is_match b argv = true →
  (∀ k c, actions !! k = Some c → is_match c argv = true →
     Action.length c ≤ Action.length a ∧
     (k < i → Action.length c < Action.length a)) →
  ∃ c, LBQ.find actions argv = Some (a, c, drop (Action.length a) argv).
Proof.
  intros Hi _ _ _ Hlen Ha _ Hall.
  destruct (find_first_longest argv actions i a) as (c & _ & Hfind);
    [by split_and!|done|by exists c].
Qed.

(** ** Listing *)

Section ListFacts.
Context `{Runtime}.

Lemma string_length_app (s t : string) :
  String.length (s +:+ t) = String.length s + String.length t.
Proof. induction s as [|c s IH]; simpl; [done|by rewrite IH]. Qed.

Lemma spaces_length n : String.length (LBQ.spaces n) = n.
Proof. induction n as [|n IH]; simpl; [done|by rewrite IH]. Qed.

Lemma label_width_fold actions start :
  foldl (λ max action, Nat.max max (String.length (Action.label action)))
    start actions = Nat.max start (longest_label actions).
Proof.
  revert start. induction actions as [|a actions IH]; intros start; simpl.
  - lia.
  - rewrite IH. unfold longest_label. simpl. lia.
Qed.

Lemma label_le_longest actions a :
  a ∈ actions → String.length (Action.label a) ≤ longest_label actions.
Proof.
  unfold longest_label. induction 1 as [a l|a b l _ IH]; simpl; lia.
Qed.

End ListFacts.

(** C9 (the claim as stated fails).  For a registry of one rule the longest
    label is its own, so padding to that width adds nothing, on either side;
    [list] puts four spaces between the label and the description. *)
Lemma list_pads_beyond_longest_label :
  LBQ.list [hello] = ["'hello'    () => console.log('world')"] ∧
  list_as_claimed [hello] = ["'hello'() => console.log('world')"] ∧
  LBQ.list [hello] ≠ list_as_claimed [hello].
Proof. split; [reflexivity|]. split; [reflexivity|]. discriminate. Qed.

(** C9 (amended).  [list] returns one line per rule, in registration order:
    the rule's label, followed by spaces up to the width of the longest
    label plus four, followed by the rule's description. *)
Theorem list_lines `{Runtime} (actions : list Action) :
  let width := longest_label actions + 4 in
  LBQ.list actions =
    map (λ a, (Action.label a
               +:+ LBQ.spaces (width - String.length (Action.label a)))
              +:+ description a) actions ∧
  length (LBQ.list actions) = length actions ∧
  Forall (λ a, String.length
                 (Action.label a
                  +:+ LBQ.spaces (width - String.length (Action.label a)))
               = width) actions.
Proof.
  intros width. unfold LBQ.list. rewrite label_width_fold.
  change (Nat.max 0 (longest_label actions) + 4) with width.
  split_and!.
  - rewrite map_map. done.
  - by rewrite !length_map.
  - apply Forall_forall. intros a Ha.
    pose proof (label_le_longest actions a Ha).
    rewrite string_length_app, spaces_length. unfold width. lia.
Qed.

(** ** Matching, position by position *)

Section PositionFacts.
Context `{Runtime}.

Lemma notMatch_position input p out :
  Action.notMatch input p out =
    match input ≫= position_match p with
    | Some m => (false, out ++ [m])
    | None => (true, out)
    end.
Proof.
  destruct input as [tok|]; [|done]. destruct p as [text|expr]; simpl.
  - by destruct (String.eqb _ _).
  - by destruct (string_match tok expr).
Qed.

Lemma matches_from_positions argv ps i out out' :
  Action.matches_from argv ps i out = Some out' ↔
  ∃ c, out' = out ++ c ∧ length c = length ps ∧
       ∀ k p, ps !! k = Some p →
         ∃ tok, argv !! (i + k) = Some tok ∧ position_match p tok = c !! k.
Proof.
  revert i out out'. induction ps as [|p ps IH]; intros i out out'.
  - simpl. split.
    + intros [= <-]. exists []. rewrite app_nil_r. by split_and!.
    + intros (c & -> & Hlen & _). destruct c; [|done]. by rewrite app_nil_r.
  - cbn [Action.matches_from]. rewrite notMatch_position.
    destruct (argv !! i ≫= position_match p) as [m|] eqn:Hm.
    + rewrite IH. split.
      * intros (c & -> & Hlen & Hpos). exists (m :: c).
        rewrite <- app_assoc. split_and!; [done|simpl; lia|].
        intros [|k] q Hq; simpl in Hq.
        -- simplify_eq. rewrite Nat.add_0_r.
           destruct (argv !! i) as [tok|]; [|done]. by exists tok.
        -- destruct (Hpos k q Hq) as (tok & Htok & Hc).
           exists tok. split; [|done]. by rewrite <- Nat.add_succ_comm.
      * intros (c & -> & Hlen & Hpos). destruct c as [|m' c]; [done|].
        destruct (Hpos 0 p eq_refl) as (tok & Htok & Hc).
        rewrite Nat.add_0_r in Htok. rewrite Htok in Hm. simpl in Hm, Hc.
        assert (m' = m) as -> by congruence.
        exists c. rewrite <- app_assoc. split_and!; [done|simpl in Hlen; lia|].
        intros k q Hq. destruct (Hpos (S k) q Hq) as (tok' & Htok' & Hc').
        exists tok'. split; [|done]. by rewrite Nat.add_succ_comm.
    + split; [done|]. intros (c & -> & Hlen & Hpos).
      destruct (Hpos 0 p eq_refl) as (tok & Htok & Hc).
      rewrite Nat.add_0_r in Htok. rewrite Htok in Hm. simpl in Hm.
      destruct c; [done|]. simpl in Hc. congruence.
Qed.

(** The loop reads [argv] only at the positions of the patterns. *)
Lemma matches_from_agree argv argv' ps i out :
  (∀ k, k < length ps → argv !! (i + k) = argv' !! (i + k)) →
  Action.matches_from argv ps i out = Action.matches_from argv' ps i out.
Proof.
  revert i out. induction ps as [|p ps IH]; intros i out Hagree; [done|].
  cbn [Action.matches_from].
  assert (argv' !! i = argv !! i) as ->.
  { specialize (Hagree 0). rewrite Nat.add_0_r in Hagree.
    symmetry. apply Hagree. simpl. lia. }
  destruct (Action.notMatch (argv !! i) p out) as [[] out1]; [done|].
  apply IH. intros k Hk. rewrite Nat.add_succ_comm. apply Hagree. simpl. lia.
Qed.

Lemma as_sequence_length a : Action.length (as_sequence a) = Action.length a.
Proof. unfold Action.length, as_sequence. by destruct (pattern a). Qed.

Lemma as_sequence_label a : Action.label (as_sequence a) = Action.label a.
Proof. unfold Action.label, as_sequence. by destruct (pattern a). Qed.

Lemma as_sequence_matches a argv r :
  Action.matches (as_sequence a) argv r = Action.matches a argv r.
Proof.
  unfold Action.matches. rewrite as_sequence_length.
  destruct (Action.length a =? 0); [done|].
  unfold as_sequence. destruct (pattern a) as [p|ps]; [|done].
  cbn [pattern pattern_list Action.matches_from].
  by destruct (Action.notMatch (argv !! 0) p []) as [[] out].
Qed.

Lemma as_sequence_find_step argv found maxLength actionArgs b :
  LBQ.find_step argv (as_sequence <$> found, maxLength, actionArgs)
    (as_sequence b) =
  (let '(found', maxLength', actionArgs') :=
     LBQ.find_step argv (found, maxLength, actionArgs) b in
   (as_sequence <$> found', maxLength', actionArgs')).
Proof.
  unfold LBQ.find_step.
  rewrite as_sequence_matches, as_sequence_length.
  assert (bool_decide (is_Some (as_sequence <$> found))
          = bool_decide (is_Some found)) as -> by (by destruct found).
  destruct (negb _ || _); [|done].
  by destruct (Action.matches b argv actionArgs) as [[] ref].
Qed.

Lemma as_sequence_find_loop argv actions found maxLength actionArgs :
  LBQ.find_loop argv (as_sequence <$> actions)
    (as_sequence <$> found, maxLength, actionArgs) =
  (let '(found', maxLength', actionArgs') :=
     LBQ.find_loop argv actions (found, maxLength, actionArgs) in
   (as_sequence <$> found', maxLength', actionArgs')).
Proof.
  unfold LBQ.find_loop. revert found maxLength actionArgs.
  induction actions as [|b actions IH]; intros found maxLength actionArgs;
    [done|].
  cbn [fmap list_fmap foldl]. rewrite as_sequence_find_step.
  destruct (LBQ.find_step argv (found, maxLength, actionArgs) b)
    as [[found1 maxLength1] actionArgs1].
  apply IH.
Qed.

End PositionFacts.

Lemma captures_positions `{Runtime}
    (a : Action) (argv : list string) (c : list RegExpMatchArray) :
  captures a argv = Some c ↔
  length c = Action.length a ∧
  ∀ k p, pattern_list (pattern a) !! k = Some p →
    ∃ tok, argv !! k = Some tok ∧ position_match p tok = c !! k.
Proof.
  unfold captures, Action.length. destruct (pattern a) as [p|ps].
  - rewrite notMatch_position. cbn [pattern_list]. split.
    + destruct (argv !! 0) as [tok|] eqn:Htok; [|done]. simpl.
      destruct (position_match p tok) as [m|] eqn:Hm; [|done].
      intros [= <-]. split; [done|].
      intros [|k] q Hq; simpl in Hq; [|done]. simplify_eq. by exists tok.
    + intros [Hlen Hpos]. destruct (Hpos 0 p eq_refl) as (tok & -> & Hc).
      simpl. rewrite Hc. destruct c as [|m [|??]]; by simplify_eq.
  - rewrite matches_from_positions. cbn [pattern_list]. split.
    + intros (c' & -> & Hlen & Hpos). done.
    + intros [Hlen Hpos]. by exists c.
Qed.

(** X1.  For a rule without sticky regular expressions: a rule without
    patterns makes [matches] answer [true] and leave [result] untouched; a
    rule with patterns makes [matches] answer [true] exactly when every
    pattern matches the token at its own index, and [result] then holds,
    index by index, the array that pattern produced on that token
    ([[token]] for a literal, the match array for a regular expression);
    otherwise [matches] answers [false] and leaves [result] untouched. *)
Theorem captures_by_position `{Runtime}
    (a : Action) (argv : list string)
    (result : Ref (option (list RegExpMatchArray))) :
  stateless_rule a = true →
  (Action.length a = 0 → Action.matches a argv result = (true, result)) ∧
  (1 ≤ Action.length a →
   (∀ c, Action.matches a argv result = (true, mkRef (Some c)) ↔
         length c = Action.length a ∧
         ∀ k p, pattern_list (pattern a) !! k = Some p →
           ∃ tok, argv !! k = Some tok ∧ position_match p tok = c !! k) ∧
   ((∀ c, Action.matches a argv result ≠ (true, mkRef (Some c))) →
    Action.matches a argv result = (false, result))).
Proof.
  intros _. split.
  - intros Hz. by rewrite matches_unfold, Hz.
  - intros Hlen. split.
    + intros c. rewrite matches_stores by done. apply captures_positions.
    + intros Hnone. rewrite matches_unfold.
      destruct (Nat.eqb_spec (Action.length a) 0) as [?|_]; [lia|].
      destruct (captures a argv) as [out|] eqn:Hc; [|done].
      exfalso. apply (Hnone out). by apply matches_stores.
Qed.

Lemma captures_by_position_witness :
  stateless_rule hello_any = true ∧
  Action.matches hello_any ["Hello"; "world"; "again"] (mkRef None)
    = (true, mkRef (Some [["Hello"]; ["world"]])) ∧
  Action.matches catch_all ["x"] (mkRef None) = (true, mkRef None).
Proof.
  destruct (captures_by_position hello_any ["Hello"; "world"; "again"]
              (mkRef None) eq_refl) as [_ Hpos].
  destruct (captures_by_position catch_all ["x"] (mkRef None) eq_refl)
    as [Hzero _].
  split; [reflexivity|]. split.
  - apply (Hpos (le_S 1 1 (le_n 1))). split; [reflexivity|].
    intros [|[|k]] p Hp; [| |discriminate Hp].
    + injection Hp as <-. exists "Hello". split; reflexivity.
    + injection Hp as <-. exists "world". split; reflexivity.
  - exact (Hzero eq_refl).
Defined.

(** X2.  A rule with [L] patterns tests only [argv[0..L)]: cutting [argv]
    after its first [L] tokens changes neither the answer of [matches] nor
    what it stores in [result]. *)
Theorem matches_tests_only_its_prefix `{Runtime}
    (a : Action) (argv : list string)
    (result : Ref (option (list RegExpMatchArray))) :
  Action.matches a (take (Action.length a) argv) result
    = Action.matches a argv result.
Proof.
  unfold Action.matches, Action.length.
  destruct (pattern a) as [p|ps].
  - simpl. by destruct argv.
  - destruct (length ps =? 0); [done|].
    rewrite (matches_from_agree (take (length ps) argv) argv); [done|].
    intros k Hk. by rewrite lookup_take_lt.
Qed.

Lemma literal_rule_captures `{Runtime}
    (a : Action) (texts : list string) (argv : list string) :
  pattern_list (pattern a) = Literal <$> texts →
  captures a argv =
    if decide (length texts ≤ length argv ∧
               toLowerCase <$> take (length texts) argv
                 = toLowerCase <$> texts)
    then Some ((λ token, [token]) <$> take (length texts) argv)
    else None.
Proof.
  intros Hpats.
  assert (Action.length a = length texts) as Hlen.
  { unfold Action.length.
    destruct (pattern a); simpl in Hpats.
    - by destruct texts as [|? [|??]].
    - by rewrite Hpats, length_fmap. }
  case_decide as Hcond.
  - destruct Hcond as [Hshort Hlower].
    apply captures_positions. rewrite Hpats, Hlen.
    split; [by rewrite length_fmap, length_take_le|].
    intros k p Hp. rewrite list_lookup_fmap in Hp.
    destruct (texts !! k) as [text|] eqn:Htext; [|done]. simplify_eq/=.
    pose proof (lookup_lt_Some _ _ _ Htext) as Hk.
    destruct (lookup_lt_is_Some_2 argv k) as [tok Htok]; [lia|].
    exists tok. split; [done|].
    rewrite list_lookup_fmap, lookup_take_lt, Htok by done. simpl.
    assert ((toLowerCase <$> take (length texts) argv) !! k
            = (toLowerCase <$> texts) !! k) as Hk' by (by rewrite Hlower).
    rewrite !list_lookup_fmap, lookup_take_lt, Htok, Htext in Hk' by done.
    simpl in Hk'. simplify_eq. by rewrite Hk', String.eqb_refl.
  - destruct (captures a argv) as [c|] eqn:Hc; [exfalso|done].
    apply captures_positions in Hc as [Hclen Hpos].
    rewrite Hpats in Hpos. apply Hcond.
    assert (∀ k text, texts !! k = Some text →
              ∃ tok, argv !! k = Some tok ∧
                     toLowerCase tok = toLowerCase text) as Hall.
    { intros k text Htext.
      destruct (Hpos k (Literal text)) as (tok & Htok & Hm).
      { by rewrite list_lookup_fmap, Htext. }
      exists tok. split; [done|]. simpl in Hm.
      destruct (String.eqb_spec (toLowerCase tok) (toLowerCase text));
        [done|].
      apply lookup_lt_Some in Htext.
      destruct (lookup_lt_is_Some_2 c k) as [m Hck]; [lia|]. congruence. }
    assert (length texts ≤ length argv) as Hshort.
    { destruct (decide (length texts = 0)) as [|Hne]; [lia|].
      destruct (lookup_lt_is_Some_2 texts (length texts - 1)) as [t Ht];
        [lia|].
      destruct (Hall _ _ Ht) as (tok & Htok%lookup_lt_Some & _). lia. }
    split; [done|]. apply list_eq. intros k.
    rewrite !list_lookup_fmap.
    destruct (texts !! k) as [text|] eqn:Htext.
    + destruct (Hall _ _ Htext) as (tok & Htok & Hlow).
      apply lookup_lt_Some in Htext as Hk.
      rewrite lookup_take_lt, Htok by done. simpl. by rewrite Hlow.
    + apply lookup_ge_None in Htext.
      by rewrite lookup_take_ge.
Qed.

(** X3.  For a rule made of literals only, [matches] answers [true]
    exactly when [argv] has at least as many tokens as the rule has literals
    and its first tokens equal the literals once both are lower-cased.  It
    then stores in [result] one single-element array per position, holding
    the token as it was typed; a rule without any pattern stores nothing,
    and a rule that does not match leaves [result] untouched. *)
Theorem literal_rule_matches_prefix_up_to_case `{Runtime}
    (a : Action) (texts : list string) (argv : list string)
    (result : Ref (option (list RegExpMatchArray))) :
  pattern_list (pattern a) = Literal <$> texts →
  Action.matches a argv result =
    if decide (length texts ≤ length argv ∧
               toLowerCase <$> take (length texts) argv
                 = toLowerCase <$> texts)
    then (true,
          match texts with
          | [] => result
          | _ => mkRef (Some ((λ token, [token]) <$> take (length texts) argv))
          end)
    else (false, result).
Proof.
  intros Hpats.
  assert (Action.length a = length texts) as Hlen.
  { unfold Action.length.
    destruct (pattern a); simpl in Hpats.
    - by destruct texts as [|? [|??]].
    - by rewrite Hpats, length_fmap. }
  rewrite matches_unfold, (literal_rule_captures a texts argv Hpats), Hlen.
  destruct texts as [|text texts].
  - cbn [length Nat.eqb].
    destruct (decide _) as [_|Hcond]; [done|].
    exfalso. apply Hcond. split; [simpl; lia|done].
  - cbn [length Nat.eqb]. by destruct (decide _).
Qed.

Lemma literal_rule_matches_prefix_up_to_case_witness :
  pattern_list (pattern hello) = Literal <$> ["hello"] ∧
  Action.matches hello ["HeLLo"; "world"] (mkRef None)
    = (true, mkRef (Some [["HeLLo"]])) ∧
  Action.matches hello ["help"; "world"] (mkRef None) = (false, mkRef None) ∧
  pattern_list (pattern catch_all) = Literal <$> [] ∧
  Action.matches catch_all ["x"] (mkRef None) = (true, mkRef None).
Proof.
  split; [reflexivity|]. split.
  { exact (literal_rule_matches_prefix_up_to_case hello ["hello"]
             ["HeLLo"; "world"] (mkRef None) eq_refl). }
  split.
  { exact (literal_rule_matches_prefix_up_to_case hello ["hello"]
             ["help"; "world"] (mkRef None) eq_refl). }
  split; [reflexivity|].
  exact (literal_rule_matches_prefix_up_to_case catch_all [] ["x"]
           (mkRef None) eq_refl).
Defined.

(** X4.  Holding a single pattern as such or as a one-element sequence
    makes no difference: [find] selects the corresponding rule with the
    same captured data and leftover, and [list] prints the same lines. *)
Theorem single_pattern_or_sequence_alike `{Runtime}
    (actions : list Action) (argv : list string) :
  LBQ.find (as_sequence <$> actions) argv
    = (λ '(a, c, rest), (as_sequence a, c, rest)) <$> LBQ.find actions argv ∧
  LBQ.list (as_sequence <$> actions) = LBQ.list actions.
Proof.
  split.
  - unfold LBQ.find.
    pose proof (as_sequence_find_loop argv actions None 0 (mkRef None)) as Hl.
    simpl in Hl. rewrite Hl.
    destruct (LBQ.find_loop argv actions (None, 0, mkRef None))
      as [[[found|] maxLength] actionArgs]; [|done].
    simpl. by destruct (value actionArgs).
  - unfold LBQ.list.
    assert (∀ start,
      foldl (λ max action, Nat.max max (String.length (Action.label action)))
        start (as_sequence <$> actions)
      = foldl (λ max action, Nat.max max (String.length (Action.label action)))
          start actions) as ->.
    { induction actions as [|b l IH]; intros start; [done|].
      cbn [fmap list_fmap foldl]. by rewrite as_sequence_label, IH. }
    f_equal. rewrite <- list_fmap_compose. apply list_fmap_ext.
    intros i b _. simpl. by rewrite as_sequence_label.
Qed.

(** ** More on [find] *)

Lemma find_snoc `{Runtime}
    (actions : list Action) (b : Action) (argv : list string) :
  LBQ.find (actions ++ [b]) argv =
    let bound :=
      match LBQ.find actions argv with
      | Some (a, _, _) => Action.length a
      | None => 0
      end in
    if (bound <? Action.length b) && is_match b argv
    then (λ c, (b, c, drop (Action.length b) argv)) <$> captures b argv
    else LBQ.find actions argv.
Proof.
  cbv zeta. unfold LBQ.find, LBQ.find_loop. rewrite foldl_snoc.
  pose proof (find_loop_inv argv actions) as Hinv.
  unfold LBQ.find_loop in Hinv.
  destruct (foldl (LBQ.find_step argv) (None, 0, mkRef None) actions)
    as [[[a|] maxLength] actionArgs]; simpl in Hinv.
  - destruct Hinv as (-> & [i (_ & Hma & _)] & Hval).
    unfold LBQ.find_step. simpl negb. rewrite orb_false_l, matches_spec.
    destruct (Nat.eqb_spec (Action.length a) 0) as [Hz|Hnz].
    + rewrite Hval, Hz.
      destruct (Nat.ltb_spec 0 (Action.length b)) as [Hlt|Hge]; simpl.
      * destruct (is_match b argv) eqn:Hb; simpl; [|by rewrite Hval].
        destruct (Nat.eqb_spec (Action.length b) 0) as [?|_]; [lia|].
        simpl. by destruct (captures b argv).
      * by rewrite Hval.
    + assert (is_Some (captures a argv)) as [c Hc]
        by (apply is_match_captures; [lia|done]).
      rewrite Hval, Hc.
      destruct (Nat.ltb_spec (Action.length a) (Action.length b)) as [Hlt|Hge];
        simpl.
      * destruct (is_match b argv) eqn:Hb; simpl; [|by rewrite Hval, Hc].
        destruct (Nat.eqb_spec (Action.length b) 0) as [?|_]; [lia|].
        simpl. by destruct (captures b argv).
      * by rewrite Hval, Hc.
  - destruct Hinv as (-> & Hval & _).
    unfold LBQ.find_step. simpl negb. rewrite orb_true_l, matches_spec.
    destruct (is_match b argv) eqn:Hb; simpl.
    + destruct (Nat.eqb_spec (Action.length b) 0) as [Hz|Hnz].
      * rewrite Hz. simpl. by rewrite Hval.
      * destruct (Nat.ltb_spec 0 (Action.length b)) as [_|?]; [|lia].
        simpl. by destruct (captures b argv).
    + by rewrite andb_false_r.
Qed.

Lemma matches_value `{Runtime} a argv :
  1 ≤ Action.length a →
  value (snd (Action.matches a argv (mkRef None))) = captures a argv.
Proof.
  intros Hlen. rewrite matches_unfold.
  destruct (Nat.eqb_spec (Action.length a) 0) as [?|_]; [lia|].
  by destruct (captures a argv).
Qed.

(** X5.  In a registry without sticky regular expressions, registering one
    more rule changes what [find] answers for an [argv] only when the new
    rule matches [argv] and has more patterns than the rule found so far
    (at least one when nothing was found); the new rule is then the answer,
    with the data [matches] stores for it and [argv] without its prefix. *)
Theorem find_after_one_more_rule `{Runtime}
    (actions : list Action) (b : Action) (argv : list string) :
  Forall (λ a, stateless_rule a = true) (actions ++ [b]) →
  LBQ.find (actions ++ [b]) argv =
    let bound :=
      match LBQ.find actions argv with
      | Some (a, _, _) => Action.length a
      | None => 0
      end in
    if (bound <? Action.length b) && is_match b argv
    then (λ c, (b, c, drop (Action.length b) argv))
           <$> value (snd (Action.matches b argv (mkRef None)))
    else LBQ.find actions argv.
Proof.
  intros _. rewrite find_snoc. cbv zeta.
  match goal with |- context [?n <? Action.length b] =>
    destruct (Nat.ltb_spec n (Action.length b)) as [Hlt|Hge] end; [|done].
  rewrite matches_value by lia. done.
Qed.

Lemma find_after_one_more_rule_witness :
  Forall (λ a, stateless_rule a = true) ([hello] ++ [hello_any]) ∧
  LBQ.find [hello] ["hello"; "world"]
    = Some (hello, [["hello"]], ["world"]) ∧
  LBQ.find ([hello] ++ [hello_any]) ["hello"; "world"]
    = Some (hello_any, [["hello"]; ["world"]], []) ∧
  LBQ.find ([hello] ++ [hello_any]) ["hello"]
    = LBQ.find [hello] ["hello"].
Proof.
  assert (Forall (λ a, stateless_rule a = true) ([hello] ++ [hello_any]))
    as Hno by (repeat constructor).
  split; [exact Hno|]. split; [reflexivity|]. split.
  - exact (find_after_one_more_rule [hello] hello_any ["hello"; "world"] Hno).
  - exact (find_after_one_more_rule [hello] hello_any ["hello"] Hno).
Defined.

(** X19.  In a registry without sticky regular expressions, registering
    again a rule that is already registered never changes what [find]
    answers. *)
Theorem duplicate_rule_never_changes_dispatch `{Runtime}
    (actions : list Action) (a : Action) (argv : list string) :
  Forall (λ a, stateless_rule a = true) actions →
  a ∈ actions → LBQ.find (actions ++ [a]) argv = LBQ.find actions argv.
Proof.
  intros _ Ha. rewrite find_snoc. cbv zeta.
  destruct (is_match a argv) eqn:Hm; [|by rewrite andb_false_r].
  rewrite andb_true_r.
  destruct (LBQ.find actions argv) as [[[b c] rest]|] eqn:Hf.
  - apply find_Some_inv in Hf as ([i (_ & _ & Hall)] & _).
    apply list_elem_of_lookup_1 in Ha as [j Hj].
    destruct (Hall j a Hj Hm) as [Hle _].
    by destruct (Nat.ltb_spec (Action.length b) (Action.length a)); [lia|].
  - rewrite find_None in Hf. rewrite (Hf a Ha Hm). done.
Qed.

Lemma duplicate_rule_never_changes_dispatch_witness :
  Forall (λ a, stateless_rule a = true) [hello; hello_any] ∧
  hello ∈ [hello; hello_any] ∧
  LBQ.find ([hello; hello_any] ++ [hello]) ["hello"]
    = LBQ.find [hello; hello_any] ["hello"].
Proof.
  assert (Forall (λ a, stateless_rule a = true) [hello; hello_any]) as Hno
    by (repeat constructor).
  split; [exact Hno|]. split; [apply list_elem_of_here|].
  exact (duplicate_rule_never_changes_dispatch [hello; hello_any] hello
           ["hello"] Hno (list_elem_of_here _ _)).
Defined.

(** X6.  In a registry without sticky regular expressions, [find] answers
    with a rule exactly when some registered rule with at least one pattern
    matches [argv]. *)
Theorem find_answers_iff_some_rule_matches `{Runtime}
    (actions : list Action) (argv : list string) :
  Forall (λ a, stateless_rule a = true) actions →
  is_Some (LBQ.find actions argv) ↔
  ∃ b, b ∈ actions ∧ is_match b argv = true ∧ 1 ≤ Action.length b.
Proof.
  intros _. split.
  - intros [[[a c] rest] Hf].
    apply find_Some_inv in Hf as ([i (Hi & Hm & _)] & Hlen & _).
    exists a. split_and!; [|done|done]. by eapply list_elem_of_lookup_2.
  - intros (b & Hb & Hm & Hlen).
    destruct (LBQ.find actions argv) eqn:Hf; [by eexists|].
    rewrite find_None in Hf. specialize (Hf b Hb Hm). lia.
Qed.

Lemma find_answers_iff_some_rule_matches_witness :
  Forall (λ a, stateless_rule a = true) [catch_all; hello; hello_any] ∧
  (is_Some (LBQ.find [catch_all; hello; hello_any] ["hello"]) ↔
   ∃ b, b ∈ [catch_all; hello; hello_any] ∧
        is_match b ["hello"] = true ∧ 1 ≤ Action.length b).
Proof.
  assert (Forall (λ a, stateless_rule a = true) [catch_all; hello; hello_any])
    as Hno by (repeat constructor).
  split; [exact Hno|].
  exact (find_answers_iff_some_rule_matches [catch_all; hello; hello_any]
           ["hello"] Hno).
Defined.



(** ** More on [register] *)

Lemma has_property_get key props :
  has_property key (VObject props) = false →
  get_property key (VObject props) = VUndefined.
Proof.
  simpl. induction props as [|[k v] props IH]; [done|].
  simpl. destruct (String.eqb k key); [done|]. apply IH.
Qed.

(** X8.  A plain object is taken for a definition by [isActionDefinition]
    exactly when its [run] is a function and its [pattern] is a string, a
    regular expression or an array of strings and regular expressions; a
    value whose [typeof] is not ['object'] (undefined, a boolean, a number,
    a string, a function) and [null] are never taken for one. *)
Theorem isActionDefinition_exactly :
  (∀ props,
     isActionDefinition (VObject props) = true ↔
     (∃ f, get_property "run" (VObject props) = VFunction f) ∧
     supported_shape (get_property "pattern" (VObject props)) = true) ∧
  (∀ v, typeof v ≠ TObject → isActionDefinition v = false) ∧
  isActionDefinition VNull = false.
Proof.
  split_and!; [|intros v Hv|done].
  - intros props. split.
    + intros Hdef. by apply isActionDefinition_shape.
    + intros [[f Hrun] Hshape].
      unfold isActionDefinition.
      destruct (has_property "pattern" (VObject props)) eqn:Hp.
      2:{ apply has_property_get in Hp. by rewrite Hp in Hshape. }
      destruct (has_property "run" (VObject props)) eqn:Hr.
      2:{ apply has_property_get in Hr. by rewrite Hr in Hrun. }
      cbn [truthy typeof JsType_eqb andb]. rewrite Hrun.
      cbn [typeof JsType_eqb]. rewrite andb_true_r.
      unfold supported_shape, is_pattern in Hshape.
      destruct (get_property "pattern" (VObject props)); done.
  - unfold isActionDefinition.
    destruct v; try done; simpl; by rewrite ?andb_false_r.
Qed.

Section OverloadFacts.
Context `{Runtime}.

Lemma register_positional_eq first pats f tail actions :
  is_pattern first = true → truthy first = true →
  forallb is_pattern pats = true →
  LBQ.register (first :: pats ++ VFunction f :: tail) actions =
    Returns ()
      (actions ++
       [Action.new
          (match pats with
           | [] => as_pattern_spec first
           | _ => Many (as_patterns (first :: pats))
           end)
          (default f (last (functions_of tail)))
          (last (strings_of tail))]).
Proof.
  intros Hfirst Htruthy Hpats.
  rewrite register_unfold. cbv zeta.
  change (arg_at (first :: pats ++ VFunction f :: tail) 0) with first.
  rewrite Htruthy, Hfirst. simpl negb.
  assert (isActionDefinition first = false) as ->.
  { destruct first; try done.
    unfold isActionDefinition. simpl. by rewrite andb_false_r. }
  change (drop 1 (first :: pats ++ VFunction f :: tail))
    with (pats ++ VFunction f :: tail).
  rewrite leading_patterns_app by done.
  change (drop (1 + length pats) (first :: pats ++ VFunction f :: tail))
    with (drop (length pats) (pats ++ VFunction f :: tail)).
  change (take (1 + length pats) (first :: pats ++ VFunction f :: tail))
    with (first :: take (length pats) (pats ++ VFunction f :: tail)).
  rewrite drop_app_length, take_app_length.
  rewrite functions_of_cons, strings_of_cons, last_cons.
  destruct (last (functions_of tail)); by destruct pats.
Qed.

Lemma register_each_cons args calls (register : list Value → M unit) actions :
  register_each (args :: calls) register actions =
    match register args actions with
    | Returns _ actions' => register_each calls register actions'
    | Throws e actions' => Throws e actions'
    end.
Proof. done. Qed.

Lemma registered_Some args a :
  registered args = Some a ↔
  ∀ actions, LBQ.register args actions = Returns () (actions ++ [a]).
Proof.
  unfold registered.
  destruct (register_cases args) as [[a' Hreg]|[e Hreg]]; rewrite Hreg.
  - simpl. split.
    + by intros [= ->].
    + intros Ha. specialize (Ha []). rewrite Hreg in Ha. by simplify_eq/=.
  - split; [done|]. intros Ha. specialize (Ha []). by rewrite Hreg in Ha.
Qed.

Lemma registered_None args :
  registered args = None ↔
  ∃ e, ∀ actions, LBQ.register args actions = Throws e actions.
Proof.
  unfold registered.
  destruct (register_cases args) as [[a' Hreg]|[e Hreg]]; rewrite Hreg.
  - simpl. split; [done|]. intros [e He]. specialize (He []).
    by rewrite Hreg in He.
  - split; [by exists e|done].
Qed.

Lemma register_each_valid ok actions :
  Forall (λ args, is_Some (registered args)) ok →
  register_each ok LBQ.register actions
    = Returns () (actions ++ omap registered ok).
Proof.
  intros Hok. revert actions.
  induction Hok as [|args ok [a Ha] _ IH]; intros actions.
  - simpl. unfold mret, M_ret. by rewrite app_nil_r.
  - rewrite register_each_cons. cbn [omap list_omap]. rewrite Ha.
    pose proof (proj1 (registered_Some _ _) Ha) as Hreg.
    rewrite Hreg, IH. simpl. by rewrite <- app_assoc.
Qed.

Lemma register_each_invalid ok bad later e actions :
  Forall (λ args, is_Some (registered args)) ok →
  (∀ actions, LBQ.register bad actions = Throws e actions) →
  register_each (ok ++ bad :: later) LBQ.register actions
    = Throws e (actions ++ omap registered ok).
Proof.
  intros Hok Hbad. revert actions.
  induction Hok as [|args ok [a Ha] _ IH]; intros actions.
  - cbn [app omap list_omap]. rewrite register_each_cons, Hbad.
    by rewrite app_nil_r.
  - cbn [app omap list_omap]. rewrite register_each_cons, Ha.
    pose proof (proj1 (registered_Some _ _) Ha) as Hreg.
    rewrite Hreg, IH. simpl. by rewrite <- app_assoc.
Qed.

End OverloadFacts.

(** X9.  The positional overloads and the definition object agree:
    [register(p, run, description?)] registers the same rule as
    [register({ pattern: p, run, description })], and
    [register(p1, p2, ..., run, description?)] the same rule as
    [register({ pattern: [p1, p2, ...], run, description })]. *)
Theorem positional_and_definition_forms_agree `{Runtime}
    (first : Value) (pats : list Value) (f : JsFunction)
    (text : option string) (actions : list Action) :
  is_pattern first = true → truthy first = true →
  forallb is_pattern pats = true →
  LBQ.register
    (first :: pats ++ VFunction f ::
       match text with Some d => [VString d] | None => [] end) actions =
  LBQ.register
    [VObject
       ([("pattern", match pats with
                     | [] => first
                     | _ => VArray (first :: pats)
                     end);
         ("run", VFunction f)] ++
        match text with Some d => [("description", VString d)] | None => [] end)]
    actions.
Proof.
  intros Hfirst Htruthy Hpats.
  rewrite register_positional_eq by done.
  rewrite (register_unfold [_]). cbv zeta.
  match goal with |- context [arg_at [?o] 0] => change (arg_at [o] 0) with o end.
  cbn [truthy negb].
  assert (forallb is_pattern (first :: pats) = true) as Hall
    by (simpl; by rewrite Hfirst).
  destruct pats as [|p pats], text as [d|];
    unfold isActionDefinition; cbn -[forallb is_pattern as_patterns];
    rewrite ?Hall.
  all: destruct first; try done.
Qed.

Lemma positional_and_definition_forms_agree_witness :
  LBQ.register
    [VString "foo"; VRegExp (mkRegExp "bar" ""); VFunction foobar;
     VString "Foo Bar"] [hello] =
  LBQ.register
    [VObject [("pattern", VArray [VString "foo"; VRegExp (mkRegExp "bar" "")]);
              ("run", VFunction foobar);
              ("description", VString "Foo Bar")]] [hello].
Proof.
  exact (positional_and_definition_forms_agree (VString "foo")
           [VRegExp (mkRegExp "bar" "")] foobar (Some "Foo Bar") [hello]
           eq_refl eq_refl eq_refl).
Defined.

(** X10.  A configuration callback that calls [register] with valid
    arguments leaves, in a fresh registry, one rule per call in the order
    of the calls; if a call throws, [defineConfig] fails with that error
    and the registry holds the rules of the calls made before it. *)
Theorem defineConfig_registers_in_call_order `{Runtime}
    (ok : list (list Value)) :
  Forall (λ args, is_Some (registered args)) ok →
  defineConfig (register_each ok) = Returns () (omap registered ok) ∧
  length (omap registered ok) = length ok ∧
  ∀ bad later, registered bad = None →
    ∃ e, LBQ.register bad [] = Throws e [] ∧
         defineConfig (register_each (ok ++ bad :: later))
           = Throws e (omap registered ok).
Proof.
  intros Hok. split_and!.
  - unfold defineConfig. by rewrite register_each_valid.
  - induction Hok as [|args ok [a Ha] _ IH]; [done|].
    cbn [omap list_omap]. rewrite Ha. simpl. by rewrite IH.
  - intros bad later Hbad.
    destruct (proj1 (registered_None _) Hbad) as [e Hreg].
    exists e. split; [apply Hreg|].
    unfold defineConfig. by rewrite (register_each_invalid _ _ _ e).
Qed.

Lemma defineConfig_registers_in_call_order_witness :
  Forall (λ args, is_Some (registered args)) test_calls ∧
  defineConfig (register_each test_calls)
    = Returns () (omap registered test_calls) ∧
  length (omap registered test_calls) = length test_calls ∧
  ∀ bad later, registered bad = None →
    ∃ e, LBQ.register bad [] = Throws e [] ∧
         defineConfig (register_each (test_calls ++ bad :: later))
           = Throws e (omap registered test_calls).
Proof.
  assert (Forall (λ args, is_Some (registered args)) test_calls) as Hok.
  { repeat constructor; by eexists. }
  split; [exact Hok|].
  exact (defineConfig_registers_in_call_order test_calls Hok).
Defined.

(** ** The configuration file *)

Import SampleHost.

Lemma uppercase_not_lowercase c :
  is_uppercase c = true → is_lowercase c = false.
Proof.
  unfold is_uppercase, is_lowercase.
  intros [_ Hle%Nat.leb_le]%andb_prop.
  destruct (Nat.leb_spec 97 (nat_of_ascii c)); [lia|done].
Qed.

Lemma separate_humps_head c rest :
  ∃ t, separate_humps (String c rest) = String c t.
Proof.
  destruct rest as [|c2 rest]; [by eexists|].
  cbn [separate_humps]. destruct (is_lowercase c && is_uppercase c2);
    by eexists.
Qed.

Lemma separate_humps_cons c1 c2 rest :
  separate_humps (String c1 (String c2 rest)) =
    if is_lowercase c1 && is_uppercase c2
    then String c1 (String "_"%char (String c2 (separate_humps rest)))
    else String c1 (separate_humps (String c2 rest)).
Proof. done. Qed.

Lemma has_hump_cons c1 c2 rest :
  has_hump (String c1 (String c2 rest)) =
    (is_lowercase c1 && is_uppercase c2) || has_hump (String c2 rest).
Proof. done. Qed.

Lemma separate_humps_facts n s :
  String.length s ≤ n →
  has_hump (separate_humps s) = false ∧
  without_underscores (separate_humps s) = without_underscores s ∧
  (has_hump s = false → separate_humps s = s).
Proof.
  revert s. induction n as [|n IH]; intros s Hlen.
  { destruct s; [done|]. simpl in Hlen. lia. }
  destruct s as [|c1 [|c2 rest]]; [done|done|].
  simpl in Hlen.
  destruct (IH (String c2 rest)) as (Hh2 & Hw2 & Hid2); [simpl; lia|].
  destruct (IH rest) as (Hh & Hw & Hid); [lia|].
  rewrite separate_humps_cons, (has_hump_cons c1 c2 rest).
  destruct (is_lowercase c1 && is_uppercase c2) eqn:Hhump.
  - apply andb_prop in Hhump as [Hl1 Hu2].
    split_and!; [| |done].
    + rewrite !has_hump_cons.
      assert (is_uppercase "_" = false) as -> by done.
      assert (is_lowercase "_" = false) as -> by done.
      rewrite andb_false_r. cbn [andb orb].
      destruct (separate_humps rest) as [|c3 t] eqn:Hsep; [done|].
      rewrite has_hump_cons, Hh, (uppercase_not_lowercase c2 Hu2).
      done.
    + assert (∀ t u, without_underscores t = without_underscores u →
                without_underscores (String c1 (String "_" (String c2 t)))
                = without_underscores (String c1 (String c2 u))) as Hcong.
      { intros t u Htu. simpl. by rewrite Htu. }
      by apply Hcong.
  - destruct (separate_humps_head c2 rest) as [t Ht].
    split_and!.
    + rewrite Ht, has_hump_cons, Hhump. by rewrite <- Ht.
    + assert (∀ u v, without_underscores u = without_underscores v →
                without_underscores (String c1 u)
                = without_underscores (String c1 v)) as Hcong.
      { intros u v Huv. simpl. by rewrite Huv. }
      by apply Hcong.
    + cbn [orb]. intros Hno. by rewrite Hid2.
Qed.

Lemma find_first_true {A} (f : A → bool) (l : list A) :
  match List.find f l with
  | Some a =>
      f a = true ∧
      ∃ i, l !! i = Some a ∧ ∀ j b, j < i → l !! j = Some b → f b = false
  | None => ∀ b, b ∈ l → f b = false
  end.
Proof.
  induction l as [|x l IH]; simpl.
  - intros b Hb. by apply elem_of_nil in Hb.
  - destruct (f x) eqn:Hx.
    + split; [done|]. exists 0. split; [done|]. intros j b Hj. lia.
    + destruct (List.find f l) as [a|].
      * destruct IH as (Ha & i & Hi & Hbefore). split; [done|].
        exists (S i). split; [done|]. intros [|j] b Hj Hb.
        -- by simplify_eq/=.
        -- apply (Hbefore j); [lia|done].
      * intros b [->|Hb]%elem_of_cons; [done|by apply IH].
Qed.

(** X11.  The snake-casing of [env] inserts underscores and nothing else,
    leaves no lowercase letter directly followed by an uppercase one, and
    returns a name without such a pair unchanged. *)
Theorem separate_humps_inserts_underscores (name : string) :
  without_underscores (separate_humps name) = without_underscores name ∧
  has_hump (separate_humps name) = false ∧
  (has_hump name = false → separate_humps name = name).
Proof.
  destruct (separate_humps_facts (String.length name) name) as (Hh & Hw & Hid);
    [done|]. by split_and!.
Qed.

(** X12.  Provided the empty path does not exist, [searchConfigFile]
    returns one of its candidates, the last of which is always
    [~/.config/lbq/index.ts]: the first candidate that exists when one
    does, and the first candidate when none exists. *)
Theorem searchConfigFile_first_existing_candidate `{Runtime} `{Host} :
  existsSync "" = false →
  searchConfigFile ∈ config_candidates ∧
  last config_candidates
    = Some (path_join [homedir; ".config"; "lbq/index.ts"]) ∧
  (∀ c, c ∈ config_candidates → existsSync c = true →
     existsSync searchConfigFile = true ∧
     ∃ i, config_candidates !! i = Some searchConfigFile ∧
          ∀ j c', j < i → config_candidates !! j = Some c' →
                  existsSync c' = false) ∧
  ((∀ c, c ∈ config_candidates → existsSync c = false) →
   head config_candidates = Some searchConfigFile).
Proof.
  intros Hempty.
  assert (∃ c0 cs, config_candidates = c0 :: cs) as (c0 & cs & Hcs).
  { unfold config_candidates. cbv zeta.
    match goal with |- ∃ _ _, ?l ++ _ = _ => destruct l end; by eexists _, _. }
  assert (last config_candidates
            = Some (path_join [homedir; ".config"; "lbq/index.ts"])) as Hlast.
  { unfold config_candidates. cbv zeta. by rewrite last_snoc. }
  unfold searchConfigFile.
  pose proof (find_first_true existsSync config_candidates) as Hfind.
  destruct (List.find existsSync config_candidates) as [a|].
  - destruct Hfind as (Ha & i & Hi & Hbefore).
    destruct (String.eqb_spec a "") as [->|_]; [congruence|].
    split_and!; [by eapply list_elem_of_lookup_2|done| |].
    + intros c _ _. split; [done|]. by exists i.
    + intros Hnone. apply list_elem_of_lookup_2 in Hi.
      specialize (Hnone a Hi). congruence.
  - rewrite Hcs in *. simpl. split_and!; [apply list_elem_of_here|done| |done].
    intros c Hc Hex. specialize (Hfind c Hc). congruence.
Qed.

Lemma searchConfigFile_first_existing_candidate_witness :
  existsSync "" = false ∧
  config_candidates
    = ["/home/u/.xdg"; "lbq/index.ts"; "/home/u/.config/lbq/index.ts"] ∧
  searchConfigFile = "/home/u/.xdg" ∧
  searchConfigFile ∈ config_candidates ∧
  existsSync searchConfigFile = true.
Proof.
  split; [reflexivity|]. split; [reflexivity|]. split; [reflexivity|].
  destruct (searchConfigFile_first_existing_candidate (H0 := host) eq_refl)
    as (Hin & _ & Hexists & _).
  split; [exact Hin|].
  exact (proj1 (Hexists "/home/u/.xdg" (list_elem_of_here _ _) eq_refl)).
Defined.

(** X13.  On a platform other than [win32] and [darwin] with a non-empty
    [XDG_CONFIG_HOME], the candidates are that directory itself, the bare
    relative name [lbq/index.ts] and [~/.config/lbq/index.ts], in this
    order; when the directory exists, [searchConfigFile] returns the
    directory. *)
Theorem searchConfigFile_with_xdg_config_home `{Runtime} `{Host}
    (xdg : string) :
  platform ≠ "win32" → platform ≠ "darwin" →
  process_env !! "XDG_CONFIG_HOME" = Some xdg → xdg ≠ "" →
  config_candidates
    = [xdg; "lbq/index.ts"; path_join [homedir; ".config"; "lbq/index.ts"]] ∧
  (existsSync xdg = true → searchConfigFile = xdg).
Proof.
  intros Hwin Hmac Hxdg Hne.
  assert (config_candidates
          = [xdg; "lbq/index.ts";
             path_join [homedir; ".config"; "lbq/index.ts"]]) as Hcs.
  { unfold config_candidates. cbv zeta.
    destruct (String.eqb_spec platform "win32") as [?|_]; [done|].
    destruct (String.eqb_spec platform "darwin") as [?|_]; [done|].
    rewrite Hxdg. unfold or_else.
    by destruct (String.eqb_spec xdg "") as [?|_]. }
  split; [done|]. intros Hex.
  unfold searchConfigFile. rewrite Hcs. simpl. rewrite Hex.
  by destruct (String.eqb_spec xdg "") as [?|_].
Qed.

Lemma searchConfigFile_with_xdg_config_home_witness :
  platform ≠ "win32" ∧ platform ≠ "darwin" ∧
  process_env !! "XDG_CONFIG_HOME" = Some "/home/u/.xdg" ∧
  "/home/u/.xdg" ≠ "" ∧
  config_candidates
    = ["/home/u/.xdg"; "lbq/index.ts";
       path_join [homedir; ".config"; "lbq/index.ts"]] ∧
  (existsSync "/home/u/.xdg" = true → searchConfigFile = "/home/u/.xdg").
Proof.
  assert (platform ≠ "win32") as Hwin by discriminate.
  assert (platform ≠ "darwin") as Hmac by discriminate.
  assert (process_env !! "XDG_CONFIG_HOME" = Some "/home/u/.xdg") as Hxdg
    by (vm_compute; reflexivity).
  assert ("/home/u/.xdg" ≠ "") as Hne by discriminate.
  split; [exact Hwin|]. split; [exact Hmac|]. split; [exact Hxdg|].
  split; [exact Hne|].
  exact (searchConfigFile_with_xdg_config_home (H0 := host) "/home/u/.xdg"
           Hwin Hmac Hxdg Hne).
Defined.

(** ** The command line *)

Section CommandLineFacts.
Context `{Runtime} `{Host} `{Cli}.

Lemma early_events_no_invoke flags :
  List.filter is_invoke (early_events flags) = [].
Proof.
  unfold early_events.
  destruct (help flags), (version flags), (edit flags), (location flags);
    simpl; try done; by destruct (existsSync configFile).
Qed.

Lemma logErrorAndExit_no_invoke err :
  List.filter is_invoke (logErrorAndExit err) = [].
Proof.
  unfold logErrorAndExit.
  destruct (_ && _ && _).
  - by destruct (get_property "stack" err).
  - destruct (_ && _ && _); [|done]. by destruct (get_property "message" err).
Qed.

Lemma filter_invoke_elem f xs events :
  Invoke f xs ∈ events → Invoke f xs ∈ List.filter is_invoke events.
Proof.
  intros Hin. apply list_elem_of_In, filter_In.
  split; [by apply list_elem_of_In|done].
Qed.

End CommandLineFacts.

(** X14.  The script calls a handler only when the configuration loaded,
    its callback registered without throwing and [find] selected a rule for
    the command line: the handler is that rule's, its arguments are the
    captured arrays followed by the leftover tokens, as many as there were
    tokens on the command line, and no other handler is called. *)
Theorem main_invokes_the_found_rule `{Runtime} `{Host} `{Cli}
    (args : list string) (f : JsFunction) (xs : list Argument) :
  Invoke f xs ∈ (main args).1 →
  ∃ callback actions a c rest,
    import_module configFile = DefaultCallback callback ∧
    defineConfig callback = Returns () actions ∧
    LBQ.find actions args = Some (a, c, rest) ∧
    f = run a ∧ xs = (MatchArg <$> c) ++ (TokenArg <$> rest) ∧
    length xs = length args ∧
    List.filter is_invoke (main args).1 = [Invoke f xs].
Proof.
  intros Hin%filter_invoke_elem. revert Hin. unfold main. cbv zeta.
  destruct (help _ || version _ || edit _ || location _).
  { simpl. rewrite early_events_no_invoke. by intros ?%elem_of_nil. }
  unfold load_and_run.
  destruct (import_module configFile) as [| |callback] eqn:Himport;
    simpl; rewrite ?List.filter_app, ?early_events_no_invoke; simpl;
    try by intros ?%elem_of_nil.
  destruct (defineConfig callback) as [[] actions|e actions] eqn:Hdef;
    simpl; rewrite ?List.filter_app, ?early_events_no_invoke; simpl;
    try by intros ?%elem_of_nil.
  destruct (list_flag (parse_flags args)).
  { simpl. rewrite List.filter_app, early_events_no_invoke. simpl.
    intros Hin. exfalso. revert Hin.
    generalize (LBQ.list actions). intros lines.
    induction lines as [|line lines IH]; simpl; [by intros ?%elem_of_nil|done]. }
  destruct (LBQ.find actions args) as [[[a c] rest]|] eqn:Hfind;
    simpl; rewrite ?List.filter_app, ?early_events_no_invoke; simpl;
    try by intros ?%elem_of_nil.
  assert (length ((MatchArg <$> c) ++ (TokenArg <$> rest)) = length args)
    as Hcount.
  { apply find_Some_inv in Hfind as (_ & _ & Hc & ->).
    apply captures_length in Hc as [Hcl Hal].
    rewrite length_app, !length_fmap, length_drop. lia. }
  destruct (invoke (run a) _) as [err|] eqn:Hinvoke; simpl;
    rewrite ?List.filter_app, ?early_events_no_invoke; simpl;
    rewrite ?logErrorAndExit_no_invoke.
  - intros [= -> ->]%list_elem_of_singleton.
    by exists callback, actions, a, c, rest.
  - intros [= -> ->]%list_elem_of_singleton.
    by exists callback, actions, a, c, rest.
Qed.

Lemma main_invokes_the_found_rule_witness :
  Invoke print_args [MatchArg ["args"]; TokenArg "one"; TokenArg "two"]
    ∈ (main ["args"; "one"; "two"]).1 ∧
  ∃ callback actions a c rest,
    import_module configFile = DefaultCallback callback ∧
    defineConfig callback = Returns () actions ∧
    LBQ.find actions ["args"; "one"; "two"] = Some (a, c, rest) ∧
    print_args = run a ∧
    [MatchArg ["args"]; TokenArg "one"; TokenArg "two"]
      = (MatchArg <$> c) ++ (TokenArg <$> rest) ∧
    length [MatchArg ["args"]; TokenArg "one"; TokenArg "two"]
      = length ["args"; "one"; "two"] ∧
    List.filter is_invoke (main ["args"; "one"; "two"]).1
      = [Invoke print_args [MatchArg ["args"]; TokenArg "one"; TokenArg "two"]].
Proof.
  assert (Invoke print_args [MatchArg ["args"]; TokenArg "one"; TokenArg "two"]
            ∈ (main ["args"; "one"; "two"]).1) as Hin.
  { vm_compute. apply list_elem_of_here. }
  split; [exact Hin|].
  exact (main_invokes_the_found_rule ["args"; "one"; "two"] print_args
           [MatchArg ["args"]; TokenArg "one"; TokenArg "two"] Hin).
Defined.

(** X15.  The script ends with status 0 or 1.  It ends with 0 exactly when
    it is run as help, version, edit or location, or when the configuration
    loads, its callback registers without throwing, and either the rules
    are listed or [find] selects a rule whose handler completes. *)
Theorem main_exit_status `{Runtime} `{Host} `{Cli} (args : list string) :
  ((main args).2 = 0 ∨ (main args).2 = 1) ∧
  ((main args).2 = 0 ↔
   let flags := parse_flags args in
   help flags || version flags || edit flags || location flags = true ∨
   ∃ callback actions,
     import_module configFile = DefaultCallback callback ∧
     defineConfig callback = Returns () actions ∧
     (list_flag flags = true ∨
      ∃ a c rest,
        LBQ.find actions args = Some (a, c, rest) ∧
        invoke (run a) ((MatchArg <$> c) ++ (TokenArg <$> rest)) = None)).
Proof.
  unfold main. cbv zeta.
  destruct (help _ || version _ || edit _ || location _) eqn:Hearly.
  { simpl. split; [by left|]. split; [by left|done]. }
  unfold load_and_run.
  assert (∀ P : Prop, (false = true ∨ P) ↔ P) as Hor
    by (intros P; split; [by intros [?|?]|by right]).
  destruct (import_module configFile) as [| |callback] eqn:Himport; simpl.
  1,2: split; [by right|]; rewrite Hor; split; [done|];
       by intros (cb & acts & ? & _).
  destruct (defineConfig callback) as [[] actions|e actions] eqn:Hdef; simpl.
  2:{ split; [by right|]. rewrite Hor. split; [done|].
      intros (cb & acts & Hcb & Hd & _). simplify_eq. congruence. }
  destruct (list_flag (parse_flags args)) eqn:Hlist; simpl.
  { split; [by left|]. split; [|done]. intros _. right.
    exists callback, actions. split_and!; [done|done|by left]. }
  destruct (LBQ.find actions args) as [[[a c] rest]|] eqn:Hfind; simpl.
  2:{ split; [by right|]. rewrite Hor. split; [done|].
      intros (cb & acts & Hcb & Hd & Hrest). simplify_eq.
      rewrite Hdef in Hd. simplify_eq.
      destruct Hrest as [?|(a & c & rest & Hf & _)]; [done|congruence]. }
  destruct (invoke (run a) ((MatchArg <$> c) ++ (TokenArg <$> rest)))
    as [err|] eqn:Hinvoke; simpl.
  - split; [by right|]. rewrite Hor. split; [done|].
    intros (cb & acts & Hcb & Hd & Hrest). simplify_eq.
    rewrite Hdef in Hd. simplify_eq.
    destruct Hrest as [?|(a' & c' & rest' & Hf & Hi)]; [done|].
    rewrite Hfind in Hf; simplify_eq; congruence.
  - split; [by left|]. split; [|done]. intros _. right.
    exists callback, actions. split_and!; [done|done|]. right.
    by exists a, c, rest.
Qed.

(** ** The post-build script *)

(** The script, statement by statement: the rewritten file is in place
    before the first [unlinkSync]. *)
Lemma postbuild_unfold fs :
  postbuild fs =
    match fs !! cliFile with
    | None => FsThrows (ENOENT cliFile) fs
    | Some old =>
        let fs1 := <[cliFile := rewritten old]> fs in
        match fs !! "./dist/cli.d.ts" with
        | None => FsThrows (ENOENT "./dist/cli.d.ts") fs1
        | Some _ =>
            let fs2 := delete "./dist/cli.d.ts" fs1 in
            match fs !! "./dist/index.test.d.ts" with
            | None => FsThrows (ENOENT "./dist/index.test.d.ts") fs2
            | Some _ =>
                let fs3 := delete "./dist/index.test.d.ts" fs2 in
                match fs !! "./dist/index.test.js" with
                | None => FsThrows (ENOENT "./dist/index.test.js") fs3
                | Some _ => FsReturns () (delete "./dist/index.test.js" fs3)
                end
            end
        end
    end.
Proof.
  unfold postbuild, mbind, FsM_bind, readFileSync.
  destruct (fs !! cliFile) as [old|] eqn:Hcli; [|done].
  unfold writeFileSync, chmodSync. rewrite lookup_insert_eq. cbn [content].
  rewrite insert_insert_eq. fold (rewritten old). cbv zeta.
  unfold unlinkSync.
  rewrite lookup_insert_ne by done.
  destruct (fs !! "./dist/cli.d.ts"); [|done].
  rewrite lookup_delete_ne, lookup_insert_ne by done.
  destruct (fs !! "./dist/index.test.d.ts"); [|done].
  rewrite !lookup_delete_ne, lookup_insert_ne by done.
  by destruct (fs !! "./dist/index.test.js").
Qed.

(** X16.  When [dist/cli.js] and the three files to remove exist, the
    script succeeds: [dist/cli.js] then holds the shebang line followed by
    its former content and has mode 755, the three files are gone, and no
    other file has changed. *)
Theorem postbuild_rewrites_and_cleans (fs : gmap string File) (old : File) :
  fs !! cliFile = Some old →
  Forall (λ p, is_Some (fs !! p)) removed_files →
  ∃ fs', postbuild fs = FsReturns () fs' ∧
         fs' !! cliFile = Some (rewritten old) ∧
         Forall (λ p, fs' !! p = None) removed_files ∧
         ∀ p, p ≠ cliFile → p ∉ removed_files → fs' !! p = fs !! p.
Proof.
  intros Hcli Hfiles.
  apply Forall_cons in Hfiles as [[f1 H1] Hfiles].
  apply Forall_cons in Hfiles as [[f2 H2] Hfiles].
  apply Forall_cons in Hfiles as [[f3 H3] _].
  rewrite postbuild_unfold, Hcli, H1, H2, H3. cbv zeta.
  eexists. split; [done|]. split_and!.
  - rewrite !lookup_delete_ne by done. by rewrite lookup_insert_eq.
  - repeat constructor.
    + rewrite 2!lookup_delete_ne by done. by rewrite lookup_delete_eq.
    + rewrite lookup_delete_ne by done. by rewrite lookup_delete_eq.
    + by rewrite lookup_delete_eq.
  - intros p Hp Hnot. unfold removed_files in Hnot.
    rewrite !not_elem_of_cons in Hnot. destruct Hnot as (? & ? & ? & _).
    rewrite !lookup_delete_ne by done. by rewrite lookup_insert_ne.
Qed.

Lemma postbuild_rewrites_and_cleans_witness :
  sample_dist !! cliFile = Some (mkFile "import './index.js'" "644") ∧
  Forall (λ p, is_Some (sample_dist !! p)) removed_files ∧
  ∃ fs', postbuild sample_dist = FsReturns () fs' ∧
         fs' !! cliFile
           = Some (rewritten (mkFile "import './index.js'" "644")) ∧
         Forall (λ p, fs' !! p = None) removed_files ∧
         ∀ p, p ≠ cliFile → p ∉ removed_files →
              fs' !! p = sample_dist !! p.
Proof.
  assert (sample_dist !! cliFile = Some (mkFile "import './index.js'" "644"))
    as Hcli by (vm_compute; reflexivity).
  assert (Forall (λ p, is_Some (sample_dist !! p)) removed_files) as Hfiles.
  { repeat constructor; vm_compute; eexists; reflexivity. }
  split; [exact Hcli|]. split; [exact Hfiles|].
  exact (postbuild_rewrites_and_cleans sample_dist _ Hcli Hfiles).
Defined.

(** X17.  A failure of the script is one missing file, and what was done
    before it stays done: when [dist/cli.js] is missing nothing has changed;
    when one of the files to remove is missing, [dist/cli.js] has already
    been rewritten. *)
Theorem postbuild_failure_is_not_undone
    (fs fs' : gmap string File) (e : FsError) :
  postbuild fs = FsThrows e fs' →
  (e = ENOENT cliFile ∧ fs !! cliFile = None ∧ fs' = fs) ∨
  (∃ old p, fs !! cliFile = Some old ∧ p ∈ removed_files ∧
            e = ENOENT p ∧ fs !! p = None ∧
            fs' !! cliFile = Some (rewritten old)).
Proof.
  rewrite postbuild_unfold.
  destruct (fs !! cliFile) as [old|] eqn:Hcli.
  2:{ intros [= <- <-]. by left. }
  cbv zeta. intros Hthrow. right. exists old.
  destruct (fs !! "./dist/cli.d.ts") eqn:H1.
  2:{ injection Hthrow as <- <-. exists "./dist/cli.d.ts".
      split_and!; [done|set_solver|done|done|by rewrite lookup_insert_eq]. }
  destruct (fs !! "./dist/index.test.d.ts") eqn:H2.
  2:{ injection Hthrow as <- <-. exists "./dist/index.test.d.ts".
      split_and!; [done|set_solver|done|done|].
      rewrite lookup_delete_ne by done. by rewrite lookup_insert_eq. }
  destruct (fs !! "./dist/index.test.js") eqn:H3; [done|].
  injection Hthrow as <- <-. exists "./dist/index.test.js".
  split_and!; [done|set_solver|done|done|].
  rewrite !lookup_delete_ne by done. by rewrite lookup_insert_eq.
Qed.

Lemma postbuild_failure_is_not_undone_witness :
  postbuild (delete "./dist/index.test.js" sample_dist)
    = FsThrows (ENOENT "./dist/index.test.js")
        (delete "./dist/index.test.d.ts"
           (delete "./dist/cli.d.ts"
              (<[cliFile := rewritten (mkFile "import './index.js'" "644")]>
                 (delete "./dist/index.test.js" sample_dist)))) ∧
  ((ENOENT "./dist/index.test.js" = ENOENT cliFile ∧
    delete "./dist/index.test.js" sample_dist !! cliFile = None ∧
    delete "./dist/index.test.d.ts"
      (delete "./dist/cli.d.ts"
         (<[cliFile := rewritten (mkFile "import './index.js'" "644")]>
            (delete "./dist/index.test.js" sample_dist)))
      = delete "./dist/index.test.js" sample_dist) ∨
   (∃ old p, delete "./dist/index.test.js" sample_dist !! cliFile = Some old ∧
             p ∈ removed_files ∧
             ENOENT "./dist/index.test.js" = ENOENT p ∧
             delete "./dist/index.test.js" sample_dist !! p = None ∧
             delete "./dist/index.test.d.ts"
               (delete "./dist/cli.d.ts"
                  (<[cliFile := rewritten (mkFile "import './index.js'" "644")]>
                     (delete "./dist/index.test.js" sample_dist)))
               !! cliFile = Some (rewritten old))).
Proof.
  assert (postbuild (delete "./dist/index.test.js" sample_dist)
    = FsThrows (ENOENT "./dist/index.test.js")
        (delete "./dist/index.test.d.ts"
           (delete "./dist/cli.d.ts"
              (<[cliFile := rewritten (mkFile "import './index.js'" "644")]>
                 (delete "./dist/index.test.js" sample_dist))))) as Hrun.
  { rewrite postbuild_unfold.
    assert (delete "./dist/index.test.js" sample_dist !! cliFile
            = Some (mkFile "import './index.js'" "644")) as ->
      by (vm_compute; reflexivity).
    assert (delete "./dist/index.test.js" sample_dist !! "./dist/cli.d.ts"
            = Some (mkFile "export {}" "644")) as ->
      by (vm_compute; reflexivity).
    assert (delete "./dist/index.test.js" sample_dist
              !! "./dist/index.test.d.ts"
            = Some (mkFile "export {}" "644")) as ->
      by (vm_compute; reflexivity).
    assert (delete "./dist/index.test.js" sample_dist
              !! "./dist/index.test.js" = None) as ->
      by (vm_compute; reflexivity).
    reflexivity. }
  split; [exact Hrun|].
  exact (postbuild_failure_is_not_undone _ _ _ Hrun).
Defined.

(** X18.  The script cannot be run twice on the same build: after a
    successful run, a second run throws for the missing [dist/cli.d.ts],
    and leaves [dist/cli.js] with two shebang lines. *)
Theorem postbuild_twice (fs fs' : gmap string File) :
  postbuild fs = FsReturns () fs' →
  ∃ old fs'',
    fs !! cliFile = Some old ∧
    postbuild fs' = FsThrows (ENOENT "./dist/cli.d.ts") fs'' ∧
    fs'' !! cliFile
      = Some (mkFile (with_shebang (with_shebang (content old))) "755").
Proof.
  rewrite postbuild_unfold.
  destruct (fs !! cliFile) as [old|] eqn:Hcli; [|done]. cbv zeta.
  destruct (fs !! "./dist/cli.d.ts") eqn:H1; [|done].
  destruct (fs !! "./dist/index.test.d.ts") eqn:H2; [|done].
  destruct (fs !! "./dist/index.test.js") eqn:H3; [|done].
  intros [= <-]. exists old. eexists. split; [done|].
  rewrite postbuild_unfold.
  rewrite !lookup_delete_ne by done. rewrite lookup_insert_eq. cbv zeta.
  rewrite lookup_delete_eq.
  split; [done|]. by rewrite lookup_insert_eq.
Qed.

Lemma postbuild_twice_witness :
  ∃ fs', postbuild sample_dist = FsReturns () fs' ∧
  ∃ old fs'',
    sample_dist !! cliFile = Some old ∧
    postbuild fs' = FsThrows (ENOENT "./dist/cli.d.ts") fs'' ∧
    fs'' !! cliFile
      = Some (mkFile (with_shebang (with_shebang (content old))) "755").
Proof.
  assert (∃ fs', postbuild sample_dist = FsReturns () fs') as [fs' Hrun].
  { rewrite postbuild_unfold.
    assert (sample_dist !! cliFile = Some (mkFile "import './index.js'" "644"))
      as -> by (vm_compute; reflexivity).
    assert (sample_dist !! "./dist/cli.d.ts"
            = Some (mkFile "export {}" "644")) as ->
      by (vm_compute; reflexivity).
    assert (sample_dist !! "./dist/index.test.d.ts"
            = Some (mkFile "export {}" "644")) as ->
      by (vm_compute; reflexivity).
    assert (sample_dist !! "./dist/index.test.js"
            = Some (mkFile "test.run()" "644")) as ->
      by (vm_compute; reflexivity).
    eexists. reflexivity. }
  exists fs'. split; [exact Hrun|].
  exact (postbuild_twice sample_dist fs' Hrun).
Defined.
